(** * BBSKit helpers: a shallow embedding of the JavaScript sources

    The development follows the repository file by file:

    - [JS]: the fragment of JavaScript values and string primitives the
      helpers rely on (UTF-16 strings, [slice], [trimEnd], [lastIndexOf],
      character classes of the regular expressions in the sources);
    - [Truncate]: [truncate] of src/helpers/core/truncate.js;
    - [PasswordStrength]: [passwordStrength];
    - [MemoryAdapter]: the in-memory datastore adapter;
    - [ValidateUsername]: [validateUsername], [hasExact], [escapeRegExp];
    - [EscapeHTML]: [escapeHTML] and [createEscaper];
    - [ValidateEmail]: [validateEmail].

    A JavaScript string is the list of its UTF-16 code units; a code unit
    is a number of type [N].  Numbers that the helpers receive as lengths,
    bounds and deltas are integers of type [Z]. *)

From Stdlib Require Import ZArith NArith List String Ascii Bool Lia.
From stdpp Require Import gmap.
Import ListNotations.

Local Open Scope N_scope.

(** * JavaScript values and string primitives *)
Module JS.

(** A JavaScript string: its UTF-16 code units. *)
Definition jsstring : Type := list N.

(** Reading an ASCII literal as a JavaScript string. *)
Definition js (s : string) : jsstring :=
  List.map N_of_ascii (list_ascii_of_string s).

(** The values a caller may pass where the helpers expect a string.
    [typeof v === 'string'] holds for [JString] only; [JObject] stands
    for any object, whose contents the helpers never read. *)
Inductive jsval : Type :=
| JUndefined
| JNull
| JBool (b : bool)
| JNumber (n : Z)
| JString (s : jsstring)
| JObject.

(** The result of running a caller-supplied function: it returns a
    value or throws. *)
Inductive completion (A : Type) : Type :=
| Normal (a : A)
| Throw.
Arguments Normal {A} a.
Arguments Throw {A}.

Definition in_range (lo hi c : N) : bool := (lo <=? c) && (c <=? hi).

(** [[a-z]], [[A-Z]], [\d] (which is [[0-9]] without the unicode flag). *)
Definition is_lower (c : N) : bool := in_range 97 122 c.
Definition is_upper (c : N) : bool := in_range 65 90 c.
Definition is_digit (c : N) : bool := in_range 48 57 c.
Definition is_letter (c : N) : bool := is_lower c || is_upper c.
Definition is_alnum (c : N) : bool := is_letter c || is_digit c.
(** [[0-9a-fA-F]] *)
Definition is_hex (c : N) : bool :=
  is_digit c || in_range 97 102 c || in_range 65 70 c.

(** ECMAScript LineTerminator: LF, CR, LS, PS.  The regular expression
    atom [.] (without the [s] flag) matches every code unit but these. *)
Definition is_line_terminator (c : N) : bool :=
  (c =? 10) || (c =? 13) || (c =? 8232) || (c =? 8233).

(** ECMAScript WhiteSpace: TAB, VT, FF, SP, NBSP, ZWNBSP and the
    Unicode space separators. *)
Definition is_white_space (c : N) : bool :=
  (c =? 9) || (c =? 11) || (c =? 12) || (c =? 32) || (c =? 160)
  || (c =? 5760) || in_range 8192 8202 c || (c =? 8239) || (c =? 8287)
  || (c =? 12288) || (c =? 65279).

(** What [trim], [trimStart] and [trimEnd] strip. *)
Definition is_trimmable (c : N) : bool :=
  is_white_space c || is_line_terminator c.

(** [s.length] *)
Definition str_length (s : jsstring) : Z := Z.of_nat (List.length s).

(** [s.slice(0, n)] for an integer [n]: a negative end counts from the
    end of the string. *)
Definition slice0 (s : jsstring) (n : Z) : jsstring :=
  let len := str_length s in
  let final := if (n <? 0)%Z then Z.max (len + n) 0 else Z.min n len in
  firstn (Z.to_nat final) s.

(** Dropping the longest prefix whose code units satisfy [p]. *)
Fixpoint drop_while (p : N -> bool) (s : jsstring) : jsstring :=
  match s with
  | [] => []
  | c :: r => if p c then drop_while p r else s
  end.

(** [s.trimEnd()] *)
Definition trimEnd (s : jsstring) : jsstring :=
  rev (drop_while is_trimmable (rev s)).

(** [s.trim()] *)
Definition trim (s : jsstring) : jsstring :=
  drop_while is_trimmable (trimEnd s).

(** [s.lastIndexOf(c)] for a one-unit search string; [-1] when [c] does
    not occur. *)
Fixpoint lastIndexOf_from (c : N) (s : jsstring) (i : Z) (found : Z) : Z :=
  match s with
  | [] => found
  | d :: r => lastIndexOf_from c r (i + 1)%Z (if d =? c then i else found)
  end.

Definition lastIndexOf (s : jsstring) (c : N) : Z :=
  lastIndexOf_from c s 0%Z (-1)%Z.

(** Equality of strings, [===] on two strings. *)
Definition str_eqb (a b : jsstring) : bool :=
  bool_decide (a = b).

(** [s.startsWith(p)] *)
Fixpoint starts_with (p s : jsstring) : bool :=
  match p, s with
  | [], _ => true
  | _ :: _, [] => false
  | a :: p', b :: s' => (a =? b) && starts_with p' s'
  end.

(** [occurs p s]: the run of code units [p] is found somewhere in [s].
    This is what [test] answers for a regular expression, without
    flags, whose atoms are the code units of [p] taken literally. *)
Fixpoint occurs (p s : jsstring) : bool :=
  starts_with p s ||
  match s with
  | [] => false
  | _ :: r => occurs p r
  end.

End JS.
Export JS.

Arguments js s%_string.

(** * src/helpers/core/truncate.js: [truncate] *)
Module Truncate.

(** The [options] argument, [{ wordSafe = false, ellipsis = '...' }]:
    a field left out by the caller is [None] and takes its default. *)
Record Options : Type := {
  wordSafe : option bool;
  ellipsis : option jsstring
}.

Definition no_options : Options :=
  {| wordSafe := None; ellipsis := None |}.

Definition truncate (text : jsval) (length : Z) (options : Options)
  : jsstring :=
  match text with
  | JString text =>
      if (length <=? 0)%Z then []
      else
        let wordSafe := default false (Truncate.wordSafe options) in
        let ellipsis := default (js "...") (Truncate.ellipsis options) in
        if (str_length text <=? length)%Z then text
        else
          let truncated := slice0 text length in
          let truncated :=
            if wordSafe then
              let lastSpace := lastIndexOf truncated 32 in
              if (lastSpace >? 0)%Z then slice0 truncated lastSpace
              else truncated
            else truncated in
          trimEnd truncated ++ ellipsis
  | _ => []
  end.

End Truncate.


(** * src/helpers/validation/passwordStrength.js *)
Module PasswordStrength.

(** The [rules] argument; a field left out by the caller is [None] and
    takes the default of the destructuring pattern. *)
Record Rules : Type := {
  minLength : option Z;
  maxLength : option Z;
  requireLowercase : option bool;
  requireUppercase : option bool;
  requireNumber : option bool;
  requireSymbol : option bool
}.

Definition no_rules : Rules :=
  {| minLength := None; maxLength := None; requireLowercase := None;
     requireUppercase := None; requireNumber := None;
     requireSymbol := None |}.

Record Result : Type := {
  score : Z;
  label : jsstring;
  reasons : list jsstring
}.

(** [reasons.push(r)] when [c] holds. *)
Definition push_if (c : bool) (r : jsstring) (reasons : list jsstring)
  : list jsstring :=
  if c then reasons ++ [r] else reasons.

Definition labels : list jsstring :=
  [js "weak"; js "fair"; js "good"; js "strong"; js "very_strong"].

Definition bonus (c : bool) : Z := if c then 1%Z else 0%Z.

Definition passwordStrength (password : jsval) (rules : Rules) : Result :=
  match password with
  | JString password =>
      let minLength := default 8%Z (PasswordStrength.minLength rules) in
      let maxLength := default 128%Z (PasswordStrength.maxLength rules) in
      let requireLowercase := default true (PasswordStrength.requireLowercase rules) in
      let requireUppercase := default true (PasswordStrength.requireUppercase rules) in
      let requireNumber := default true (PasswordStrength.requireNumber rules) in
      let requireSymbol := default true (PasswordStrength.requireSymbol rules) in
      let len := str_length password in
      let reasons := [] in
      let score := 0%Z in
      let reasons := push_if (len <? minLength)%Z (js "too_short") reasons in
      let reasons := push_if (len >? maxLength)%Z (js "too_long") reasons in
      let hasLower := existsb is_lower password in
      let hasUpper := existsb is_upper password in
      let hasNumber := existsb is_digit password in
      let hasSymbol := existsb (fun c => negb (is_alnum c)) password in
      (* Enforce the rules *)
      let reasons := push_if (requireLowercase && negb hasLower) (js "missing_lowercase") reasons in
      let reasons := push_if (requireUppercase && negb hasUpper) (js "missing_uppercase") reasons in
      let reasons := push_if (requireNumber && negb hasNumber) (js "missing_number") reasons in
      let reasons := push_if (requireSymbol && negb hasSymbol) (js "missing_symbol") reasons in
      (* Scoring system (0-4) *)
      let score := (score + bonus hasLower)%Z in
      let score := (score + bonus hasUpper)%Z in
      let score := (score + bonus hasNumber)%Z in
      let score := (score + bonus hasSymbol)%Z in
      (* Length bonuses *)
      let score := (score + bonus (len >=? 12))%Z in
      let score := (score + bonus (len >=? 16))%Z in
      let score := Z.min score 4 in
      let label := nth (Z.to_nat score) labels [] in
      (* Override label if clearly too short or too long *)
      let label := if (len <? minLength)%Z then js "weak" else label in
      let label := if (len >? maxLength)%Z then js "weak" else label in
      {| score := score; label := label; reasons := reasons |}
  | _ =>
      {| score := 0; label := js "invalid";
         reasons := [js "not_a_string"] |}
  end.

End PasswordStrength.

(** * src/helpers/system/datastore/adapters/memoryAdapter.js *)
Module MemoryAdapter.

(** A JavaScript number, as far as [incr] is concerned: an integer or
    [NaN]. *)
Inductive number : Type :=
| Int (z : Z)
| NaN.

Definition num_add (a b : number) : number :=
  match a, b with
  | Int x, Int y => Int (x + y)
  | _, _ => NaN
  end.

Definition num_sub (a b : number) : number :=
  match a, b with
  | Int x, Int y => Int (x - y)
  | _, _ => NaN
  end.

(** The values kept in the store: bare values a caller hands to [set],
    and the records [{ v, e }] in which DataStore wraps a value [v] with
    its expiry time [e]. *)
Inductive value : Type :=
| Undefined
| Null
| Num (n : number)
| Wrapped (v e : value).

(** [x?.v] and [x?.e]: only a wrapped record has these properties. *)
Definition prop_v (x : value) : value :=
  match x with Wrapped v _ => v | _ => Undefined end.
Definition prop_e (x : value) : value :=
  match x with Wrapped _ e => e | _ => Undefined end.

(** [x ?? d] *)
Definition nullish (x d : value) : value :=
  match x with Undefined | Null => d | _ => x end.

(** [x != null] *)
Definition not_nullish (x : value) : bool :=
  match x with Undefined | Null => false | _ => true end.

(** [Number(x)]: a record converts through its string form
    ["[object Object]"], which is not a numeral. *)
Definition Number (x : value) : number :=
  match x with
  | Undefined => NaN
  | Null => Int 0
  | Num n => n
  | Wrapped _ _ => NaN
  end.

(** The state of an adapter, its field [_m]. *)
Abbreviation store := (gmap jsstring value).

(** [new MemoryAdapter()] *)
Definition constructor : store := ∅.

(** [Map.prototype.get] answers [undefined] for a key that is not there. *)
Definition get (key : jsstring) (m : store) : value :=
  default Undefined (m !! key).

Definition set (key : jsstring) (val : value) (m : store) : store :=
  <[key := val]> m.

Definition has (key : jsstring) (m : store) : bool :=
  bool_decide (is_Some (m !! key)).

Definition delete (key : jsstring) (m : store) : bool * store :=
  (has key m, base.delete key m).

Definition size (m : store) : Z := Z.of_nat (base.size m).

Definition mget (keys : list jsstring) (m : store) : list value :=
  List.map (fun k => get k m) keys.

Definition mset (entries : list (jsstring * value)) (m : store) : store :=
  fold_left (fun m kv => set (fst kv) (snd kv) m) entries m.

(** [incr(key, delta)].  [now1] and [now2] are what the two calls of
    [Date.now()] read, in the order of evaluation; the second call is
    made only when the record has an expiry time. *)
Definition incr (key : jsstring) (delta : number) (now1 now2 : Z)
    (m : store) : number * store :=
  let curr := get key m in
  let currVal := nullish (prop_v curr) (Num (Int 0)) in
  let next := num_add (Number currVal) delta in
  let ttl :=
    if not_nullish (prop_e curr)
    then Num (num_sub (Number (prop_e curr)) (Int now1))
    else Null in
  let wrapped :=
    Wrapped (Num next)
            (if not_nullish ttl
             then Num (num_add (Int now2) (Number ttl))
             else Null) in
  (next, set key wrapped m).

End MemoryAdapter.

(** * src/helpers/validation/validateUsername.js *)
Module ValidateUsername.

(** A caller-supplied [RegExp]: its [source] text and what [test]
    answers.  The patterns are taken without the [g] and [y] flags, so
    that [test] does not depend on earlier calls. *)
Record RegExp : Type := {
  source : jsstring;
  test : jsstring -> bool
}.

(** [string[] | Set<string>]: both are kept as the sequence of their
    elements, a [Set] in insertion order. *)
Inductive collection : Type :=
| ArrayOf (items : list jsstring)
| SetOf (items : list jsstring).

Definition items_of (c : collection) : list jsstring :=
  match c with ArrayOf l | SetOf l => l end.

(** [c.length]: an array has one, a [Set] has [size] instead and
    answers [undefined]. *)
Definition length_of (c : collection) : option Z :=
  match c with
  | ArrayOf l => Some (Z.of_nat (List.length l))
  | SetOf _ => None
  end.

(** [x > 0] for [x] a number or [undefined]; [undefined] converts to
    [NaN] and the comparison is false. *)
Definition gt_zero (x : option Z) : bool :=
  match x with Some n => (n >? 0)%Z | None => false end.

(** The rule set; a field left out by the caller is [None]. *)
Record UsernameRules : Type := {
  min : option Z;
  max : option Z;
  allowed : option RegExp;
  startsWith : option RegExp;
  endsWith : option RegExp;
  disallow : option (list RegExp);
  blacklist : option collection;
  whitelist : option collection;
  noConsecutive : option collection;
  normalize : option (jsstring -> completion jsstring);
  custom : option (list (jsstring -> completion jsval))
}.

Definition no_rules : UsernameRules :=
  {| min := None; max := None; allowed := None; startsWith := None;
     endsWith := None; disallow := None; blacklist := None;
     whitelist := None; noConsecutive := None; normalize := None;
     custom := None |}.

Record UsernameResult : Type := {
  ok : bool;
  reasons : list jsstring;
  value : jsstring
}.

(** [Array.prototype.includes] and [Set.prototype.has] on strings.  The
    last line of the source, which answers [false] for anything that is
    neither an array nor a [Set], is out of reach of a [collection]. *)
Definition hasExact (listOrSet : collection) (value : jsstring) : bool :=
  match listOrSet with
  | ArrayOf l => existsb (str_eqb value) l
  | SetOf l => existsb (str_eqb value) l
  end.

(** The characters of [/[.*+?^${}()|[\]\\]/]. *)
Definition regexp_specials : list N :=
  [46; 42; 43; 63; 94; 36; 123; 125; 40; 41; 124; 91; 93; 92].

(** [s.replace(/[.*+?^${}()|[\]\\]/g, "\\$&")] *)
Definition escapeRegExp (s : jsstring) : jsstring :=
  flat_map (fun c => if existsb (N.eqb c) regexp_specials
                     then [92; c] else [c]) s.

(** The atoms of a pattern in which every backslash is followed by the
    character it protects. *)
Fixpoint atoms (p : jsstring) : list N :=
  match p with
  | [] => []
  | c :: r =>
      match r with
      | d :: r' => if c =? 92 then d :: atoms r' else c :: atoms r
      | [] => [c]
      end
  end.

(** [new RegExp(p + "{2,}")]: the quantifier binds the last atom of
    [p]; with no atom before it the constructor throws a SyntaxError
    (nothing to repeat).  The compiled expression, without flags, finds
    the atoms of [p] followed by one more copy of the last one. *)
Definition repeat_regexp (p : jsstring) : completion (jsstring -> bool) :=
  let a := atoms p in
  match rev a with
  | [] => Throw
  | c :: _ => Normal (fun value => occurs (a ++ [c]) value)
  end.

Definition push_if (c : bool) (r : jsstring) (reasons : list jsstring)
  : list jsstring :=
  if c then reasons ++ [r] else reasons.

(** [for (const re of disallow) ...] *)
Definition check_disallow (disallow : list RegExp) (value : jsstring)
    (reasons : list jsstring) : list jsstring :=
  fold_left
    (fun reasons re =>
       push_if (test re value) (js "disallowed_pattern:" ++ source re)
               reasons)
    disallow reasons.

(** [for (const ch of noConsecutive) ...] *)
Fixpoint check_consecutive (chars : list jsstring) (value : jsstring)
    (reasons : list jsstring) : completion (list jsstring) :=
  match chars with
  | [] => Normal reasons
  | ch :: rest =>
      match repeat_regexp (escapeRegExp ch) with
      | Throw => Throw
      | Normal re =>
          check_consecutive rest value
            (push_if (re value) (js "consecutive:" ++ ch) reasons)
      end
  end.

(** One turn of [for (const fn of custom) { try ... catch ... }]. *)
Definition run_custom (fn : jsstring -> completion jsval)
    (value : jsstring) (reasons : list jsstring) : list jsstring :=
  match fn value with
  | Normal (JString res) => push_if (negb (str_eqb res [])) res reasons
  | Normal _ => reasons
  | Throw => reasons ++ [js "custom_validator_error"]
  end.

Definition check_custom (custom : list (jsstring -> completion jsval))
    (value : jsstring) (reasons : list jsstring) : list jsstring :=
  fold_left (fun reasons fn => run_custom fn value reasons) custom reasons.

(** [r && !r.test(value)] *)
Definition fails (r : option RegExp) (value : jsstring) : bool :=
  match r with Some re => negb (test re value) | None => false end.

(** [c && hasExact(c, value)] *)
Definition listed (c : option collection) (value : jsstring) : bool :=
  match c with Some l => hasExact l value | None => false end.

(** [normalize ? normalize(username) : username] *)
Definition normalized (rules : UsernameRules) (username : jsstring)
  : completion jsstring :=
  match normalize rules with
  | Some normalize => normalize username
  | None => Normal username
  end.

(** [if (noConsecutive && noConsecutive.length > 0) { for ... }] *)
Definition consecutive_rule (rules : UsernameRules) (value : jsstring)
    (reasons : list jsstring) : completion (list jsstring) :=
  match noConsecutive rules with
  | Some noConsecutive =>
      if gt_zero (length_of noConsecutive)
      then check_consecutive (items_of noConsecutive) value reasons
      else Normal reasons
  | None => Normal reasons
  end.

Definition validateUsername (username : jsval) (rules : UsernameRules)
  : completion UsernameResult :=
  let reasons := [] in
  match username with
  | JString username =>
      let min := default 1%Z (ValidateUsername.min rules) in
      let max := default 64%Z (ValidateUsername.max rules) in
      let disallow := default [] (ValidateUsername.disallow rules) in
      let custom := default [] (ValidateUsername.custom rules) in
      match normalized rules username with
      | Throw => Throw
      | Normal value =>
          (* Check the whitelist *)
          if listed (whitelist rules) value then
            Normal {| ok := true; reasons := []; value := value |}
          else
            (* Check the length *)
            let reasons := push_if (str_length value <? min)%Z (js "too_short") reasons in
            let reasons := push_if (str_length value >? max)%Z (js "too_long") reasons in
            (* Check for invalid characters *)
            let reasons := push_if (fails (allowed rules) value) (js "invalid_chars") reasons in
            (* Check start and endswith *)
            let reasons := push_if (fails (startsWith rules) value) (js "bad_start") reasons in
            let reasons := push_if (fails (endsWith rules) value) (js "bad_end") reasons in
            (* Check for disallowed patterns *)
            let reasons := check_disallow disallow value reasons in
            (* Check the no consecutive rule *)
            match consecutive_rule rules value reasons with
            | Throw => Throw
            | Normal reasons =>
                (* Check the blacklist *)
                let reasons := push_if (listed (blacklist rules) value) (js "blacklisted") reasons in
                (* Custom validators *)
                let reasons := check_custom custom value reasons in
                Normal {| ok := (List.length reasons =? 0)%nat;
                          reasons := reasons; value := value |}
            end
      end
  | _ =>
      Normal {| ok := false; reasons := [js "not_a_string"]; value := [] |}
  end.

(** [createUsernameValidator(rules)] *)
Definition createUsernameValidator (rules : UsernameRules)
  : jsval -> completion UsernameResult :=
  fun name => validateUsername name rules.

(** The [normalize] of the repository's tests, [(s) => s.trim()]. *)
Definition trim_rule : jsstring -> completion jsstring :=
  fun s => Normal (trim s).

(** ** Rule sets used as examples *)

Definition plain_rules (min max : option Z) : UsernameRules :=
  {| min := min; max := max; allowed := None; startsWith := None;
     endsWith := None; disallow := None; blacklist := None;
     whitelist := None; noConsecutive := None; normalize := None;
     custom := None |}.

(** Every other rule fails on ["admin"], which is whitelisted. *)
Definition admin_rules : UsernameRules :=
  {| min := Some 10%Z; max := Some 3%Z; allowed := None;
     startsWith := None; endsWith := None; disallow := None;
     blacklist := Some (ArrayOf [js "admin"]);
     whitelist := Some (SetOf [js "admin"]);
     noConsecutive := Some (ArrayOf [js "a"]); normalize := None;
     custom := Some [fun _ => Throw] |}.

(** A predicate that throws, after a [normalize] that returns. *)
Definition throwing_rules : UsernameRules :=
  {| min := None; max := None; allowed := None; startsWith := None;
     endsWith := None; disallow := None; blacklist := None;
     whitelist := None; noConsecutive := Some (ArrayOf [js "_"]);
     normalize := Some trim_rule; custom := Some [fun _ => Throw] |}.

(** ** Conditions on a rule set *)

(** The [normalize] transform, when there is one, returns on [username]. *)
Definition normalize_returns (rules : UsernameRules) (username : jsval)
  : bool :=
  match username with
  | JString s =>
      match normalized rules s with Normal _ => true | Throw => false end
  | _ => true
  end.

(** No entry of a [noConsecutive] array is the empty string. *)
Definition consecutive_entries_nonempty (rules : UsernameRules) : bool :=
  match noConsecutive rules with
  | Some (ArrayOf l) => forallb (fun ch => negb (str_eqb ch [])) l
  | _ => true
  end.

End ValidateUsername.

(** * src/helpers/core/truncate.js: [escapeHTML] and [createEscaper] *)
Module EscapeHTML.

(** ** Plain objects with string values

    An object is the list of its own properties in the order of their
    creation. *)
Definition object : Type := list (jsstring * jsstring).

(** [o[k]], [None] for [undefined]. *)
Fixpoint obj_get (o : object) (k : jsstring) : option jsstring :=
  match o with
  | [] => None
  | (k', v) :: o' => if str_eqb k' k then Some v else obj_get o' k
  end.

(** [o[k] = v]: an existing property keeps its place. *)
Fixpoint obj_set (o : object) (k v : jsstring) : object :=
  match o with
  | [] => [(k, v)]
  | (k', v') :: o' =>
      if str_eqb k' k then (k', v) :: o' else (k', v') :: obj_set o' k v
  end.

Fixpoint digits_value (acc : N) (s : jsstring) : option N :=
  match s with
  | [] => Some acc
  | c :: r =>
      if is_digit c then digits_value (10 * acc + (c - 48)) r else None
  end.

(** A property key is an array index when it is the canonical numeral
    of an integer below [2^32 - 1]. *)
Definition array_index (k : jsstring) : option N :=
  match k with
  | [] => None
  | c :: r =>
      if (c =? 48) && negb (Nat.eqb (List.length r) 0) then None
      else
        match digits_value 0 k with
        | Some n => if n <=? 4294967294 then Some n else None
        | None => None
        end
  end.

Fixpoint insert_index (n : N) (k : jsstring) (l : list (N * jsstring))
  : list (N * jsstring) :=
  match l with
  | [] => [(n, k)]
  | (m, k') :: l' =>
      if n <=? m then (n, k) :: l else (m, k') :: insert_index n k l'
  end.

Fixpoint index_keys (ks : list jsstring) : list (N * jsstring) :=
  match ks with
  | [] => []
  | k :: r =>
      match array_index k with
      | Some n => insert_index n k (index_keys r)
      | None => index_keys r
      end
  end.

(** [Object.keys(o)]: array indices in ascending order, then the other
    keys in creation order. *)
Definition Object_keys (o : object) : list jsstring :=
  let ks := List.map fst o in
  List.map snd (index_keys ks)
  ++ List.filter (fun k => match array_index k with
                      | Some _ => false
                      | None => true
                      end) ks.

(** [{ ...target, ...src }] *)
Definition spread (target src : object) : object :=
  fold_left
    (fun t k => match obj_get src k with
                | Some v => obj_set t k v
                | None => t
                end)
    (Object_keys src) target.

(** ** Sets of strings, in insertion order *)
Definition Set_add (s : list jsstring) (x : jsstring) : list jsstring :=
  if existsb (str_eqb x) s then s else s ++ [x].

Definition new_Set (l : list jsstring) : list jsstring :=
  fold_left Set_add l [].

Definition Set_delete (s : list jsstring) (x : jsstring) : list jsstring :=
  List.filter (fun y => negb (str_eqb y x)) s.

(** ** Options *)

(** [string | string[]] *)
Inductive chars : Type :=
| OfString (s : jsstring)
| OfArray (a : list jsstring).

Record Options : Type := {
  extra : option chars;
  exclude : option chars;
  map : option object;
  preventDoubleEscape : option bool
}.

Definition no_options : Options :=
  {| extra := None; exclude := None; map := None;
     preventDoubleEscape := None |}.

Definition is_high_surrogate (c : N) : bool := in_range 55296 56319 c.
Definition is_low_surrogate (c : N) : bool := in_range 56320 57343 c.

(** [Array.from(s)]: the string is read code point by code point, a
    surrogate pair making one element. *)
Fixpoint code_points (s : jsstring) : list jsstring :=
  match s with
  | [] => []
  | c :: r =>
      match r with
      | d :: r' =>
          if is_high_surrogate c && is_low_surrogate d
          then [c; d] :: code_points r'
          else [c] :: code_points r
      | [] => [[c]]
      end
  end.

(** [toChars] *)
Definition toChars (v : chars) : list jsstring :=
  match v with
  | OfArray a => a
  | OfString s => code_points s
  end.

Definition baseMap : object :=
  [ ([38], js "&amp;");
    ([60], js "&lt;");
    ([62], js "&gt;");
    ([34], js "&quot;");
    ([39], js "&#39;") ].

(** [entityMap = { ...baseMap, ...map }] *)
Definition entityMap (options : Options) : object :=
  spread (spread [] baseMap) (default [] (map options)).

(** [escapeSet], after the loop that deletes the excluded characters. *)
Definition escapeSet (options : Options) : list jsstring :=
  let extraSet :=
    new_Set (toChars (default (OfString []) (extra options))) in
  let excludeSet :=
    new_Set (toChars (default (OfString []) (exclude options))) in
  let escapeSet := new_Set (Object_keys (entityMap options) ++ extraSet) in
  fold_left Set_delete excludeSet escapeSet.

(** ** The character class *)

(** The characters of [/[\\^$.*+?()[\]{}|]/]. *)
Definition class_specials : list N :=
  [92; 94; 36; 46; 42; 43; 63; 40; 41; 91; 93; 123; 125; 124].

(** [ch.replace(/[\\^$.*+?()[\]{}|]/g, "\\$&")] *)
Definition escape_member (ch : jsstring) : jsstring :=
  flat_map (fun c => if existsb (N.eqb c) class_specials
                     then [92; c] else [c]) ch.

Definition regexClass (escapeSet : list jsstring) : jsstring :=
  concat (List.map escape_member escapeSet).

(** A class atom: the code unit it denotes, and whether it was written
    with a backslash.  Every backslash of [regexClass] stands before
    one of [class_specials], which it makes literal. *)
Fixpoint class_atoms (body : jsstring) : list (bool * N) :=
  match body with
  | [] => []
  | c :: r =>
      match r with
      | d :: r' =>
          if c =? 92 then (true, d) :: class_atoms r'
          else (false, c) :: class_atoms r
      | [] => [(false, c)]
      end
  end.

Inductive class_item : Type :=
| Single (c : N)
| Range (lo hi : N).

Definition is_dash (a : bool * N) : bool := negb (fst a) && (snd a =? 45).

(** ClassRanges: an atom, a dash and a further atom make a range, which
    must be in order; a dash elsewhere stands for itself. *)
Fixpoint class_ranges (atoms : list (bool * N))
  : completion (list class_item) :=
  match atoms with
  | [] => Normal []
  | a :: rest =>
      let single :=
        match class_ranges rest with
        | Normal items => Normal (Single (snd a) :: items)
        | Throw => Throw
        end in
      match rest with
      | d :: b :: rest' =>
          if is_dash d then
            if snd a <=? snd b then
              match class_ranges rest' with
              | Normal items => Normal (Range (snd a) (snd b) :: items)
              | Throw => Throw
              end
            else Throw
          else single
      | _ => single
      end
  end.

Definition item_matches (c : N) (i : class_item) : bool :=
  match i with
  | Single a => a =? c
  | Range lo hi => in_range lo hi c
  end.

(** A compiled [RegExp] of the form [[...]]. *)
Definition pattern_matches (pattern : list class_item) (c : N) : bool :=
  existsb (item_matches c) pattern.

(** [new RegExp(`[${regexClass}]`, "g")] *)
Definition new_pattern (regexClass : jsstring)
  : completion (list class_item) :=
  class_ranges (class_atoms regexClass).

(** [entityMap[ch] ?? ch] *)
Definition entity_of (entityMap : object) (ch : jsstring) : jsstring :=
  default ch (obj_get entityMap ch).

(** [s.replace(pattern, (ch) => entityMap[ch] ?? ch)]: the class
    matches one code unit at a time. *)
Definition replace_class (pattern : list class_item) (entityMap : object)
    (s : jsstring) : jsstring :=
  flat_map (fun c => if pattern_matches pattern c
                     then entity_of entityMap [c] else [c]) s.

(** ** The tokenizer
    [/&(#\d+|#x[0-9a-fA-F]+|[a-zA-Z][a-zA-Z0-9]+);|./g] *)

(** A matcher reads a prefix of its input and answers the text it
    matched and what is left. *)
Definition matcher : Type := jsstring -> option (jsstring * jsstring).

Definition consumed (c : N) (r : option (jsstring * jsstring))
  : option (jsstring * jsstring) :=
  match r with
  | Some (m, rest) => Some (c :: m, rest)
  | None => None
  end.

(** A literal code unit. *)
Definition lit (c : N) (k : matcher) : matcher :=
  fun s => match s with
           | d :: r => if d =? c then consumed d (k r) else None
           | [] => None
           end.

(** One code unit of a class. *)
Definition one (p : N -> bool) (k : matcher) : matcher :=
  fun s => match s with
           | d :: r => if p d then consumed d (k r) else None
           | [] => None
           end.

(** [p+] followed by [k]: greedy, giving code units back one at a time
    when what follows does not match. *)
Fixpoint many1 (p : N -> bool) (k : matcher) (s : jsstring)
  : option (jsstring * jsstring) :=
  match s with
  | d :: r =>
      if p d then
        match many1 p k r with
        | Some res => consumed d (Some res)
        | None => consumed d (k r)
        end
      else None
  | [] => None
  end.

(** [a|b] followed by what both were given as continuation. *)
Definition alt (a b : matcher) : matcher :=
  fun s => match a s with Some res => Some res | None => b s end.

Definition accept : matcher := fun s => Some ([], s).

(** [&(#\d+|#x[0-9a-fA-F]+|[a-zA-Z][a-zA-Z0-9]+);] *)
Definition entity : matcher :=
  lit 38
    (alt (lit 35 (many1 is_digit (lit 59 accept)))
    (alt (lit 35 (lit 120 (many1 is_hex (lit 59 accept))))
         (one is_letter (many1 is_alnum (lit 59 accept))))).

(** [.] *)
Definition dot : matcher :=
  one (fun c => negb (is_line_terminator c)) accept.

Definition token : matcher := alt entity dot.

(** [m.endsWith(";")] *)
Definition ends_with_semicolon (m : jsstring) : bool :=
  match rev m with c :: _ => c =? 59 | [] => false end.

(** The function handed to [replace] when [preventDoubleEscape] is on. *)
Definition keep_entity (pattern : list class_item) (entityMap : object)
    (m : jsstring) : jsstring :=
  if (1 <? List.length m)%nat
     && match m with c :: _ => c =? 38 | [] => false end
     && ends_with_semicolon m
  then m
  else replace_class pattern entityMap m.

(** [s.replace(re, f)] for the global tokenizer [re]: where a token is
    found it is replaced by [f] of it and the search goes on after it;
    where none is found the code unit is kept and the search goes on at
    the next one.  [fuel] bounds the number of search positions. *)
Fixpoint replace_tokens (fuel : nat) (f : jsstring -> jsstring)
    (s : jsstring) : jsstring :=
  match fuel with
  | O => s
  | S fuel =>
      match s with
      | [] => []
      | c :: r =>
          match token s with
          | Some (m, rest) => f m ++ replace_tokens fuel f rest
          | None => c :: replace_tokens fuel f r
          end
      end
  end.

(** The search visits each code unit at most once. *)
Definition replace_all_tokens (f : jsstring -> jsstring) (s : jsstring)
  : jsstring :=
  replace_tokens (List.length s) f s.

Definition escapeHTML (input : jsval) (options : Options)
  : completion jsstring :=
  match input with
  | JString input =>
      let preventDoubleEscape :=
        default true (EscapeHTML.preventDoubleEscape options) in
      let entityMap := EscapeHTML.entityMap options in
      let escapeSet := EscapeHTML.escapeSet options in
      if Nat.eqb (List.length escapeSet) 0 then Normal input
      else
        match new_pattern (regexClass escapeSet) with
        | Throw => Throw
        | Normal pattern =>
            if negb preventDoubleEscape then
              Normal (replace_class pattern entityMap input)
            else
              Normal (replace_all_tokens
                        (keep_entity pattern entityMap) input)
        end
  | _ => Normal []
  end.

(** [createEscaper(options)] *)
Definition createEscaper (options : Options)
  : jsval -> completion jsstring :=
  fun input => escapeHTML input options.

(** ** Notions used to state the properties *)

(** [bind] on completions. *)
Definition and_then {A B : Type} (c : completion A)
    (k : A -> completion B) : completion B :=
  match c with Normal a => k a | Throw => Throw end.

(** The tokenizer's first alternative matches all of [tok]. *)
Definition is_entity_reference (tok : jsstring) : bool :=
  match entity tok with
  | Some (_, []) => true
  | _ => false
  end.

(** The strings of the tokenizer's first alternative: a decimal
    reference, a hexadecimal reference with a lowercase [x], or a name
    of two or more alphanumerics that starts with a letter. *)
Inductive entity_shape : jsstring -> Prop :=
| decimal_reference (ds : jsstring) :
    ds <> [] -> forallb is_digit ds = true ->
    entity_shape (38 :: 35 :: ds ++ [59])
| hex_reference (hs : jsstring) :
    hs <> [] -> forallb is_hex hs = true ->
    entity_shape (38 :: 35 :: 120 :: hs ++ [59])
| named_reference (l : N) (r : jsstring) :
    is_letter l = true -> r <> [] -> forallb is_alnum r = true ->
    entity_shape (38 :: l :: r ++ [59]).

(** The class of the default options: the five keys of [baseMap]. *)
Definition default_pattern : list class_item :=
  [Single 38; Single 60; Single 62; Single 34; Single 39].

(** The callback of the default options. *)
Definition default_callback : jsstring -> jsstring :=
  keep_entity default_pattern baseMap.

(** The default options with [preventDoubleEscape: true] spelled out. *)
Definition prevent_double_escape : Options :=
  {| extra := None; exclude := None; map := None;
     preventDoubleEscape := Some true |}.

(** The same options with [preventDoubleEscape: false]. *)
Definition double_escaping (options : Options) : Options :=
  {| extra := extra options; exclude := exclude options;
     map := map options; preventDoubleEscape := Some false |}.

(** [c] is a member of the effective escape set. *)
Definition in_escapeSet (options : Options) (c : N) : bool :=
  existsb (str_eqb [c]) (escapeSet options).

(** What the specification asks of one code unit: a member of the
    effective escape set gives way to its entity, or stays when the
    entity map has no entry for it; any other code unit stays. *)
Definition spec_escape_unit (options : Options) (c : N) : jsstring :=
  if in_escapeSet options c
  then entity_of (entityMap options) [c]
  else [c].

(** The output the specification describes: every code unit of the
    input treated by [spec_escape_unit]. *)
Definition spec_escape (options : Options) (input : jsstring) : jsstring :=
  flat_map (spec_escape_unit options) input.




(** Options used as an example: [=] and [-] are escaped as well, the
    apostrophe is not, and entity references are escaped again. *)
Definition attribute_options : Options :=
  {| extra := Some (OfString (js "=-"));
     exclude := Some (OfString (js "'"));
     map := Some [(js "=", js "&equals;"); (js "-", js "&#45;")];
     preventDoubleEscape := Some false |}.

(** Every member of the effective escape set is one code unit. *)
Definition single_units (options : Options) : bool :=
  forallb (fun m => Nat.eqb (List.length m) 1) (escapeSet options).

(** The hyphen is no member of the effective escape set, unless it is
    the last one. *)
Definition hyphen_only_last (options : Options) : bool :=
  negb (existsb (str_eqb [45]) (removelast (escapeSet options))).

End EscapeHTML.

(** * src/helpers/validation/validateEmail.js *)
Module ValidateEmail.

(** [[A-Z0-9._%+-]] under the [i] flag.  Without the unicode flag a code
    unit matches [[A-Z]] when its upper-case form lies in the range,
    and a code unit outside ASCII is never folded into ASCII: the
    letters are the ASCII letters of both cases. *)
Definition is_local_part (c : N) : bool :=
  is_alnum c || (c =? 46) || (c =? 95) || (c =? 37) || (c =? 43)
  || (c =? 45).

(** [[A-Z0-9.-]] under the [i] flag. *)
Definition is_domain_part (c : N) : bool :=
  is_alnum c || (c =? 46) || (c =? 45).

(** [$], without the [m] flag: the end of the input. *)
Definition end_of_input : EscapeHTML.matcher :=
  fun s => match s with [] => Some ([], []) | _ :: _ => None end.

(** [/^[A-Z0-9._%+-]+@[A-Z0-9.-]+\.[A-Z]{2,}$/i], tried at the start of
    the input as [^] demands; [[A-Z]{2,}] is one letter and then one or
    more. *)
Definition pattern : EscapeHTML.matcher :=
  EscapeHTML.many1 is_local_part
    (EscapeHTML.lit 64
       (EscapeHTML.many1 is_domain_part
          (EscapeHTML.lit 46
             (EscapeHTML.one is_letter
                (EscapeHTML.many1 is_letter end_of_input))))).

Definition validateEmail (email : jsval) : bool :=
  match email with
  | JString email =>
      let trimmed := trim email in
      match pattern trimmed with
      | Some _ => true
      | None => false
      end
  | _ => false
  end.

(** The addresses the pattern describes: a local part, [@], a domain
    and, after its last dot, two letters or more. *)
Inductive email_shape : jsstring -> Prop :=
| email_parts (local domain tld : jsstring) :
    local <> [] -> forallb is_local_part local = true ->
    domain <> [] -> forallb is_domain_part domain = true ->
    (2 <= List.length tld)%nat -> forallb is_letter tld = true ->
    email_shape (local ++ 64 :: domain ++ 46 :: tld).

End ValidateEmail.

(** * Properties of [truncate] *)
Section TruncateFacts.
Import Truncate.

(** A text within the limit comes back as it is. *)
Lemma truncate_short (text : jsstring) (length : Z) (options : Options) :
  (0 < length)%Z -> (str_length text <= length)%Z ->
  truncate (JString text) length options = text.
Proof.
  intros Hpos Hle. unfold truncate.
  destruct (Z.leb_spec length 0); [lia |].
  destruct (Z.leb_spec (str_length text) length); [reflexivity | lia].
Qed.

(** A longer text is cut after [length] code units, trimmed at the end
    and given the ellipsis. *)
Lemma truncate_cut (text : jsstring) (length : Z) :
  (0 < length)%Z -> (length < str_length text)%Z ->
  truncate (JString text) length no_options
  = trimEnd (firstn (Z.to_nat length) text) ++ js "...".
Proof.
  intros Hpos Hlt. unfold truncate, slice0. simpl.
  destruct (Z.leb_spec length 0); [lia |].
  destruct (Z.leb_spec (str_length text) length); [lia |].
  destruct (Z.ltb_spec length 0); [lia |].
  rewrite Z.min_l by lia. reflexivity.
Qed.

(** C9, as worded: [truncate("Hello world, this is a test.", 10)] would
    be ["Hello wor..."].  The function answers something else. *)
Lemma truncate_hello_world_not_wor :
  truncate (JString (js "Hello world, this is a test.")) 10 no_options
  <> js "Hello wor...".
Proof. vm_compute. intros H. discriminate H. Qed.

(** C9, amended: [truncate("Hello world, this is a test.", 10)] is
    ["Hello worl..."]: the first 10 code units of the text, trimmed at
    the end, followed by the default ellipsis. *)
Theorem truncate_hello_world :
  truncate (JString (js "Hello world, this is a test.")) 10 no_options
  = js "Hello worl..."
  /\ trimEnd (slice0 (js "Hello world, this is a test.") 10) ++ js "..."
     = js "Hello worl..."
  /\ str_length (slice0 (js "Hello world, this is a test.") 10) = 10%Z.
Proof. repeat split; vm_compute; reflexivity. Qed.

End TruncateFacts.

(** * Properties of [passwordStrength] *)
Section PasswordStrengthFacts.
Import PasswordStrength.

(** The score is a function of the password alone: one point for each
    character class present, one more from 12 code units on and one more
    from 16 on, capped at 4. *)
Lemma score_formula (p : jsstring) (rules : Rules) :
  score (passwordStrength (JString p) rules)
  = Z.min (bonus (existsb is_lower p) + bonus (existsb is_upper p)
           + bonus (existsb is_digit p)
           + bonus (existsb (fun c => negb (is_alnum c)) p)
           + bonus (str_length p >=? 12)%Z
           + bonus (str_length p >=? 16)%Z)%Z 4.
Proof. reflexivity. Qed.



End PasswordStrengthFacts.

(** * Properties of the in-memory adapter *)
Section MemoryAdapterFacts.
Import MemoryAdapter.








End MemoryAdapterFacts.

(** * Properties of [validateUsername] *)
Section ValidateUsernameFacts.
Import ValidateUsername.

Lemma push_if_incl (c : bool) (r x : jsstring) (reasons : list jsstring) :
  In x reasons -> In x (push_if c r reasons).
Proof.
  intros H. unfold push_if. destruct c; [| exact H].
  apply in_or_app. left. exact H.
Qed.

Lemma run_custom_incl fn (value x : jsstring) (reasons : list jsstring) :
  In x reasons -> In x (run_custom fn value reasons).
Proof.
  intros H. unfold run_custom.
  destruct (fn value) as [[| | | | res |] |]; try exact H.
  - by apply push_if_incl.
  - apply in_or_app. left. exact H.
Qed.

Lemma check_custom_incl custom (value x : jsstring)
    (reasons : list jsstring) :
  In x reasons -> In x (check_custom custom value reasons).
Proof.
  unfold check_custom. revert reasons.
  induction custom as [| fn custom IH]; intros reasons H; [exact H |].
  cbn [fold_left]. apply IH. by apply run_custom_incl.
Qed.

(** A predicate that throws leaves its mark among the reasons. *)
Lemma check_custom_throw custom fn (value : jsstring)
    (reasons : list jsstring) :
  In fn custom -> fn value = Throw ->
  In (js "custom_validator_error") (check_custom custom value reasons).
Proof.
  unfold check_custom. revert reasons.
  induction custom as [| g custom IH]; intros reasons Hin Hthrow.
  - destruct Hin.
  - cbn [fold_left]. destruct Hin as [-> | Hin].
    + apply (check_custom_incl custom). unfold run_custom.
      rewrite Hthrow. apply in_or_app. right. left. reflexivity.
    + by apply IH.
Qed.

(** The loop over a [noConsecutive] array ends without throwing when
    no entry is empty. *)
Lemma atoms_escapeRegExp (s : jsstring) : atoms (escapeRegExp s) = s.
Proof.
  induction s as [| c s IH]; [reflexivity |].
  unfold escapeRegExp in *. cbn [flat_map].
  destruct (existsb (N.eqb c) regexp_specials) eqn:E.
  - cbn [app atoms]. rewrite N.eqb_refl. by rewrite IH.
  - cbn [app atoms].
    destruct (flat_map _ s) as [| d r] eqn:F.
    + destruct s as [| c' s']; [reflexivity |].
      cbn [flat_map] in F.
      destruct (existsb (N.eqb c') regexp_specials); discriminate F.
    + destruct (N.eqb_spec c 92) as [-> | _]; [discriminate E |].
      by rewrite IH.
Qed.

Lemma repeat_regexp_nonempty (ch : jsstring) :
  ch <> [] ->
  exists c, List.last ch 0 = c
            /\ repeat_regexp (escapeRegExp ch)
               = Normal (fun value => occurs (ch ++ [c]) value).
Proof.
  intros Hne. unfold repeat_regexp. rewrite atoms_escapeRegExp.
  destruct (rev ch) as [| c r] eqn:E.
  - apply (f_equal (@rev N)) in E. rewrite rev_involutive in E.
    by destruct Hne.
  - exists c. split; [| reflexivity].
    apply (f_equal (@rev N)) in E. rewrite rev_involutive in E.
    rewrite E. cbn [rev]. apply last_last.
Qed.

Lemma check_consecutive_returns (chars : list jsstring) (value : jsstring)
    (reasons : list jsstring) :
  forallb (fun ch => negb (str_eqb ch [])) chars = true ->
  exists reasons', check_consecutive chars value reasons = Normal reasons'.
Proof.
  revert reasons. induction chars as [| ch chars IH]; intros reasons H.
  - by exists reasons.
  - cbn [forallb] in H. apply andb_true_iff in H as [Hch H].
    cbn [check_consecutive].
    destruct (repeat_regexp_nonempty ch) as (c & _ & ->).
    + intros ->. discriminate Hch.
    + by apply IH.
Qed.

(** A [Set] given as [noConsecutive] is never looked at. *)
Lemma consecutive_rule_set (rules : UsernameRules) (l : list jsstring)
    (value : jsstring) (reasons : list jsstring) :
  noConsecutive rules = Some (SetOf l) ->
  consecutive_rule rules value reasons = Normal reasons.
Proof. intros H. unfold consecutive_rule. by rewrite H. Qed.

Lemma consecutive_rule_returns (rules : UsernameRules) (value : jsstring)
    (reasons : list jsstring) :
  consecutive_entries_nonempty rules = true ->
  exists reasons', consecutive_rule rules value reasons = Normal reasons'.
Proof.
  unfold consecutive_entries_nonempty, consecutive_rule.
  destruct (noConsecutive rules) as [[l | l] |]; intros H.
  - cbn [length_of gt_zero items_of].
    destruct (Z.of_nat (List.length l) >? 0)%Z;
      [by apply check_consecutive_returns | by exists reasons].
  - by exists reasons.
  - by exists reasons.
Qed.

(** C3, as worded: a value found in the whitelist would be accepted
    whatever the other rules.  The whitelist is consulted after
    [normalize]: the entry [" admin "] is not what the trimmed input is
    compared with, and the other rules apply. *)
Lemma whitelist_compared_with_normalized_value :
  hasExact (ArrayOf [js " admin "]) (js " admin ") = true
  /\ validateUsername (JString (js " admin "))
       {| min := None; max := Some 3%Z; allowed := None;
          startsWith := None; endsWith := None; disallow := None;
          blacklist := Some (ArrayOf [js " admin "]);
          whitelist := Some (ArrayOf [js " admin "]);
          noConsecutive := None; normalize := Some trim_rule;
          custom := None |}
     = Normal {| ok := false; reasons := [js "too_long"];
                 value := js "admin" |}.
Proof. split; vm_compute; reflexivity. Qed.

(** C3, amended: when the whitelist holds the normalized value (the
    input itself when the rules have no [normalize]), the result is
    [ok = true] with no reasons, whatever the other rules are. *)
Theorem whitelist_dominates (username value : jsstring)
    (rules : UsernameRules) :
  normalized rules username = Normal value ->
  listed (whitelist rules) value = true ->
  validateUsername (JString username) rules
  = Normal {| ok := true; reasons := []; value := value |}.
Proof.
  intros Hnorm Hwhite. unfold validateUsername.
  rewrite Hnorm, Hwhite. reflexivity.
Qed.

Lemma whitelist_dominates_witness :
  normalized admin_rules (js "admin") = Normal (js "admin")
  /\ listed (whitelist admin_rules) (js "admin") = true
  /\ validateUsername (JString (js "admin")) admin_rules
     = Normal {| ok := true; reasons := []; value := js "admin" |}.
Proof.
  repeat (split; [reflexivity |]).
  apply (whitelist_dominates (js "admin") (js "admin") admin_rules);
    reflexivity.
Defined.

(** C5, as worded: no rule set would make [validateUsername] throw.
    An error thrown by [normalize] is not caught. *)
Lemma normalize_error_propagates :
  validateUsername (JString (js "%"))
    {| min := None; max := None; allowed := None; startsWith := None;
       endsWith := None; disallow := None; blacklist := None;
       whitelist := None; noConsecutive := None;
       normalize := Some (fun _ => Throw); custom := None |}
  = Throw.
Proof. reflexivity. Qed.

(** C5, amended: for an input of any type, when [normalize] (if given)
    returns on it and no entry of a [noConsecutive] array is empty,
    [validateUsername] returns a result; a value that is not a string
    gets the reason [not_a_string]; and when the custom predicates are
    reached, each one that throws puts [custom_validator_error] among
    the reasons. *)
Theorem validateUsername_returns (username : jsval)
    (rules : UsernameRules) :
  normalize_returns rules username = true ->
  consecutive_entries_nonempty rules = true ->
  exists r,
    validateUsername username rules = Normal r
    /\ ((forall s, username <> JString s) ->
        r = {| ok := false; reasons := [js "not_a_string"]; value := [] |})
    /\ forall s fn,
         username = JString s ->
         listed (whitelist rules) (value r) = false ->
         In fn (default [] (custom rules)) ->
         fn (value r) = Throw ->
         In (js "custom_validator_error") (reasons r)
         /\ ok r = false.
Proof.
  intros Hnorm Hcons.
  destruct username as [| | b | n | s |];
    try (eexists; split; [reflexivity |]; split; [reflexivity |];
         intros ? ? H; discriminate H).
  unfold normalize_returns in Hnorm. unfold validateUsername.
  destruct (normalized rules s) as [v |]; [| discriminate Hnorm].
  destruct (listed (whitelist rules) v) eqn:Hwhite.
  - eexists. split; [reflexivity |]. split.
    + intros H. by destruct (H s).
    + cbn [value]. intros ? ? _ H. congruence.
  - match goal with
    | |- context [consecutive_rule rules v ?rs] =>
        destruct (consecutive_rule_returns rules v rs Hcons) as [rs' ->]
    end.
    eexists. split; [reflexivity |]. split.
    + intros H. by destruct (H s).
    + cbn [value reasons ok]. intros s' fn _ _ Hin Hthrow.
      pose proof (check_custom_throw _ _ _
        (push_if (listed (blacklist rules) v) (js "blacklisted") rs')
        Hin Hthrow) as Hcve.
      split; [exact Hcve |].
      destruct (check_custom _ _ _); [destruct Hcve | reflexivity].
Qed.

Lemma validateUsername_returns_witness :
  normalize_returns throwing_rules (JString (js " bob ")) = true
  /\ consecutive_entries_nonempty throwing_rules = true
  /\ exists r,
       validateUsername (JString (js " bob ")) throwing_rules = Normal r
       /\ ((forall s, JString (js " bob ") <> JString s) ->
           r = {| ok := false; reasons := [js "not_a_string"];
                  value := [] |})
       /\ forall s fn,
            JString (js " bob ") = JString s ->
            listed (whitelist throwing_rules) (value r) = false ->
            In fn (default [] (custom throwing_rules)) ->
            fn (value r) = Throw ->
            In (js "custom_validator_error") (reasons r)
            /\ ok r = false.
Proof.
  repeat (split; [reflexivity |]).
  apply (validateUsername_returns (JString (js " bob ")) throwing_rules);
    reflexivity.
Defined.

(** On an array of single characters the rule does what is asked:
    one reason for each character that occurs twice in a row, in the
    order of the array. *)
Lemma check_consecutive_array (l : list N) (value : jsstring)
    (reasons : list jsstring) :
  check_consecutive (List.map (fun c => [c]) l) value reasons
  = Normal (reasons
            ++ List.map (fun c => js "consecutive:" ++ [c])
                 (List.filter (fun c => occurs [c; c] value) l)).
Proof.
  revert reasons. induction l as [| c l IH]; intros reasons.
  - cbn. by rewrite app_nil_r.
  - cbn [List.map check_consecutive].
    destruct (repeat_regexp_nonempty [c]) as (c' & Hc & ->);
      [discriminate |].
    cbn in Hc. subst c'. rewrite IH. cbn [List.filter app].
    unfold push_if. destruct (occurs [c; c] value).
    + cbn [List.map]. by rewrite <- app_assoc.
    + reflexivity.
Qed.

(** C6: with [noConsecutive] given as a [Set], as the rule's
    documentation allows, the doubled underscore of ["a__b"] goes
    unreported and the name is accepted; the same characters given as
    an array are reported. *)
Theorem noConsecutive_set_is_ignored :
  validateUsername (JString (js "a__b"))
    {| min := None; max := None; allowed := None; startsWith := None;
       endsWith := None; disallow := None; blacklist := None;
       whitelist := None; noConsecutive := Some (SetOf [js "_"]);
       normalize := None; custom := None |}
  = Normal {| ok := true; reasons := []; value := js "a__b" |}
  /\ validateUsername (JString (js "a__b"))
       {| min := None; max := None; allowed := None; startsWith := None;
          endsWith := None; disallow := None; blacklist := None;
          whitelist := None; noConsecutive := Some (ArrayOf [js "_"]);
          normalize := None; custom := None |}
     = Normal {| ok := false; reasons := [js "consecutive:_"];
                 value := js "a__b" |}.
Proof. split; vm_compute; reflexivity. Qed.

(** C7: in every result that [validateUsername] returns, [ok] is true
    exactly when there are no reasons. *)
Theorem ok_iff_no_reasons (username : jsval) (rules : UsernameRules)
    (r : UsernameResult) :
  validateUsername username rules = Normal r ->
  ok r = true <-> reasons r = [].
Proof.
  unfold validateUsername. intros H.
  destruct username as [| | b | n | s |];
    try (injection H as <-; cbn; split; discriminate).
  destruct (normalized rules s) as [v |]; [| discriminate H].
  destruct (listed (whitelist rules) v).
  - injection H as <-. cbn. split; reflexivity.
  - destruct (consecutive_rule rules v _) as [rs |]; [| discriminate H].
    injection H as <-. cbn [ok reasons].
    destruct (check_custom _ _ _); cbn; split; congruence.
Qed.

Lemma ok_iff_no_reasons_witness :
  validateUsername (JString (js "ab")) (plain_rules (Some 3%Z) None)
  = Normal {| ok := false; reasons := [js "too_short"]; value := js "ab" |}
  /\ (ok {| ok := false; reasons := [js "too_short"]; value := js "ab" |}
      = true
      <-> reasons {| ok := false; reasons := [js "too_short"];
                     value := js "ab" |} = []).
Proof.
  split; [reflexivity |].
  apply (ok_iff_no_reasons (JString (js "ab")) (plain_rules (Some 3%Z) None)).
  reflexivity.
Defined.

End ValidateUsernameFacts.

(** * Properties of [escapeHTML] *)
Section EscapeHTMLFacts.
Import EscapeHTML.

(** ** The tokenizer *)

Lemma consumed_some (c : N) r (m rest : jsstring) :
  consumed c r = Some (m, rest) ->
  exists m', r = Some (m', rest) /\ m = c :: m'.
Proof.
  destruct r as [[m' rest'] |]; cbn; intros H; [| discriminate H].
  injection H as <- <-. by exists m'.
Qed.

Lemma semicolon_some (s m rest : jsstring) :
  lit 59 accept s = Some (m, rest) -> m = [59] /\ s = 59 :: rest.
Proof.
  destruct s as [| d r]; cbn; [discriminate |].
  destruct (N.eqb_spec d 59) as [-> | _]; [| discriminate].
  cbn. intros H. injection H as <- <-. by split.
Qed.

(** A greedy run that stops before a semicolon. *)
Lemma many1_sound (p : N -> bool) (s m rest : jsstring) :
  many1 p (lit 59 accept) s = Some (m, rest) ->
  exists run, run <> [] /\ forallb p run = true
              /\ m = run ++ [59] /\ s = m ++ rest.
Proof.
  revert m rest. induction s as [| d r IH]; intros m rest; cbn [many1];
    [discriminate |].
  destruct (p d) eqn:Hd; [| discriminate].
  destruct (many1 p (lit 59 accept) r) as [[m1 rest1] |] eqn:E.
  - cbn. intros H. injection H as <- <-.
    destruct (IH m1 rest1 eq_refl) as (run & Hne & Hall & -> & ->).
    exists (d :: run). cbn. rewrite Hd, Hall. by repeat split.
  - intros H. apply consumed_some in H as (m' & H & ->).
    apply semicolon_some in H as [-> ->].
    exists [d]. cbn. rewrite Hd. by repeat split.
Qed.

Lemma many1_complete (p : N -> bool) (run t : jsstring) :
  p 59 = false -> run <> [] -> forallb p run = true ->
  many1 p (lit 59 accept) (run ++ 59 :: t) = Some (run ++ [59], t).
Proof.
  intros H59. induction run as [| d run IH]; intros Hne Hall; [done |].
  cbn [forallb] in Hall. apply andb_true_iff in Hall as [Hd Hall].
  cbn [app many1]. rewrite Hd.
  destruct run as [| d' run'].
  - cbn. by rewrite H59.
  - rewrite IH; [reflexivity | discriminate | exact Hall].
Qed.

Lemma entity_sound (s m rest : jsstring) :
  entity s = Some (m, rest) -> entity_shape m /\ s = m ++ rest.
Proof.
  unfold entity, lit at 1. destruct s as [| a s]; [discriminate |].
  destruct (N.eqb_spec a 38) as [-> | _]; [| discriminate].
  intros H. apply consumed_some in H as (m1 & H & ->).
  unfold alt in H.
  destruct (lit 35 (many1 is_digit (lit 59 accept)) s) as [[m2 r2] |] eqn:E1.
  { injection H as <- <-. unfold lit at 1 in E1.
    destruct s as [| b s]; [discriminate |].
    destruct (N.eqb_spec b 35) as [-> | _]; [| discriminate].
    apply consumed_some in E1 as (m3 & E1 & ->).
    apply many1_sound in E1 as (run & Hne & Hall & -> & ->).
    split; [by apply decimal_reference | reflexivity]. }
  destruct (lit 35 (lit 120 (many1 is_hex (lit 59 accept))) s)
    as [[m2 r2] |] eqn:E2.
  { injection H as <- <-. unfold lit at 1 in E2.
    destruct s as [| b s]; [discriminate |].
    destruct (N.eqb_spec b 35) as [-> | _]; [| discriminate].
    apply consumed_some in E2 as (m3 & E2 & ->).
    unfold lit at 1 in E2.
    destruct s as [| c s]; [discriminate |].
    destruct (N.eqb_spec c 120) as [-> | _]; [| discriminate].
    apply consumed_some in E2 as (m4 & E2 & ->).
    apply many1_sound in E2 as (run & Hne & Hall & -> & ->).
    split; [by apply hex_reference | reflexivity]. }
  unfold one in H. destruct s as [| l s]; [discriminate |].
  destruct (is_letter l) eqn:Hl; [| discriminate].
  apply consumed_some in H as (m3 & H & ->).
  apply many1_sound in H as (run & Hne & Hall & -> & ->).
  split; [by apply named_reference | reflexivity].
Qed.

Lemma entity_complete (m t : jsstring) :
  entity_shape m -> entity (m ++ t) = Some (m, t).
Proof.
  intros [ds Hne Hall | hs Hne Hall | l r Hl Hne Hall].
  - unfold entity, alt. cbn -[many1].
    rewrite <- app_assoc. cbn [app].
    by rewrite many1_complete.
  - unfold entity, alt. cbn -[many1].
    rewrite <- app_assoc. cbn [app].
    by rewrite many1_complete.
  - assert (Hl35 : (l =? 35) = false).
    { destruct (N.eqb_spec l 35) as [-> | _]; [discriminate Hl | done]. }
    unfold entity, alt. cbn -[many1]. rewrite Hl35, Hl.
    rewrite <- app_assoc. cbn [app].
    by rewrite many1_complete.
Qed.

Lemma entity_shape_head (m : jsstring) :
  entity_shape m ->
  exists m', m = 38 :: m' /\ forallb (fun c => negb (c =? 38)) m' = true
             /\ m' <> [].
Proof.
  assert (Hrun : forall (p : N -> bool) (run : jsstring),
             (forall c, p c = true -> (c =? 38) = false) ->
             forallb p run = true ->
             forallb (fun c => negb (c =? 38)) (run ++ [59]) = true).
  { intros p run Hp Hall. rewrite forallb_app. cbn.
    rewrite andb_true_r. rewrite forallb_forall in *.
    intros c Hc. by rewrite (Hp c (Hall c Hc)). }
  assert (Hclass : forall c, is_alnum c = true -> (c =? 38) = false).
  { intros c Hc. destruct (N.eqb_spec c 38) as [-> | _]; [| done].
    discriminate Hc. }
  intros [ds Hne Hall | hs Hne Hall | l r Hl Hne Hall]; eexists;
    (split; [reflexivity |]); (split; [| discriminate]).
  - cbn [forallb]. rewrite (Hrun is_digit); [done | | done].
    intros c Hc. apply Hclass. unfold is_alnum. by rewrite Hc, orb_true_r.
  - cbn [forallb]. rewrite (Hrun is_hex); [done | | done].
    intros c Hc. destruct (N.eqb_spec c 38) as [-> | _]; [| done].
    discriminate Hc.
  - cbn [forallb]. rewrite (Hrun is_alnum); [| done | done].
    rewrite Hclass; [done |]. unfold is_alnum. by rewrite Hl.
Qed.

Lemma token_some (s m rest : jsstring) :
  token s = Some (m, rest) ->
  s = m ++ rest
  /\ (entity_shape m
      \/ exists c, m = [c] /\ is_line_terminator c = false
                   /\ entity s = None).
Proof.
  unfold token, alt.
  destruct (entity s) as [[m1 r1] |] eqn:E.
  - intros H. injection H as <- <-.
    apply entity_sound in E as [Hshape ->]. split; [done | by left].
  - unfold dot, one. destruct s as [| c r]; [discriminate |].
    destruct (is_line_terminator c) eqn:Hlt; cbn; [discriminate |].
    intros H. injection H as <- <-. split; [done |]. right. by exists c.
Qed.

Lemma token_shorter (s m rest : jsstring) :
  token s = Some (m, rest) -> (List.length rest < List.length s)%nat.
Proof.
  intros H. apply token_some in H as [-> [Hm | (c & -> & _)]].
  - apply entity_shape_head in Hm as (m' & -> & _).
    rewrite length_app. cbn. lia.
  - cbn. lia.
Qed.

(** The fuel of [replace_all_tokens] is enough. *)
Lemma replace_tokens_fuel (f : jsstring -> jsstring) (n n' : nat)
    (s : jsstring) :
  (List.length s <= n)%nat -> (List.length s <= n')%nat ->
  replace_tokens n f s = replace_tokens n' f s.
Proof.
  revert n' s. induction n as [| n IH]; intros n' s Hn Hn'.
  - destruct s; [| cbn in Hn; lia]. by destruct n'.
  - destruct n' as [| n'].
    + destruct s; [done | cbn in Hn'; lia].
    + cbn [replace_tokens]. destruct s as [| c r]; [done |].
      destruct (token (c :: r)) as [[m rest] |] eqn:E.
      * apply token_shorter in E. f_equal. apply IH; lia.
      * f_equal. cbn in Hn, Hn'. apply IH; lia.
Qed.

Lemma replace_all_nil (f : jsstring -> jsstring) :
  replace_all_tokens f [] = [].
Proof. reflexivity. Qed.

Lemma replace_all_token (f : jsstring -> jsstring) (s m rest : jsstring) :
  token s = Some (m, rest) ->
  replace_all_tokens f s = f m ++ replace_all_tokens f rest.
Proof.
  intros H. pose proof (token_shorter _ _ _ H) as Hlen.
  unfold replace_all_tokens. destruct s as [| c r]; [discriminate H |].
  cbn [List.length replace_tokens]. rewrite H. f_equal.
  apply replace_tokens_fuel; cbn in Hlen; lia.
Qed.

Lemma replace_all_skip (f : jsstring -> jsstring) (c : N) (r : jsstring) :
  token (c :: r) = None ->
  replace_all_tokens f (c :: r) = c :: replace_all_tokens f r.
Proof.
  intros H. unfold replace_all_tokens.
  cbn [List.length replace_tokens]. by rewrite H.
Qed.

Lemma token_entity (m t : jsstring) :
  entity_shape m -> token (m ++ t) = Some (m, t).
Proof. intros H. unfold token, alt. by rewrite entity_complete. Qed.

Lemma token_none (c : N) (r : jsstring) :
  token (c :: r) = None ->
  entity (c :: r) = None /\ is_line_terminator c = true.
Proof.
  unfold token, alt. destruct (entity (c :: r)) as [[? ?] |]; [done |].
  unfold dot, one. destruct (is_line_terminator c); [done | discriminate].
Qed.




Lemma ends_with_semicolon_snoc (a : jsstring) :
  ends_with_semicolon (a ++ [59]) = true.
Proof. unfold ends_with_semicolon. by rewrite rev_unit. Qed.

(** The callback hands an entity reference back as it is. *)
Lemma keep_entity_shape pattern entityMap (m : jsstring) :
  entity_shape m -> keep_entity pattern entityMap m = m.
Proof.
  intros [ds Hne Hall | hs Hne Hall | l r Hl Hne Hall];
    unfold keep_entity.
  - change (38 :: 35 :: ds ++ [59]) with ((38 :: 35 :: ds) ++ [59]).
    rewrite ends_with_semicolon_snoc. cbn.
    destruct ds; [done |]. reflexivity.
  - change (38 :: 35 :: 120 :: hs ++ [59])
      with ((38 :: 35 :: 120 :: hs) ++ [59]).
    rewrite ends_with_semicolon_snoc. reflexivity.
  - change (38 :: l :: r ++ [59]) with ((38 :: l :: r) ++ [59]).
    rewrite ends_with_semicolon_snoc. cbn.
    destruct r; [done |]. reflexivity.
Qed.

(** On a single code unit it applies the character class. *)
Lemma keep_entity_unit pattern entityMap (c : N) :
  keep_entity pattern entityMap [c] = replace_class pattern entityMap [c].
Proof. reflexivity. Qed.

Lemma is_entity_reference_shape (tok : jsstring) :
  is_entity_reference tok = true <-> entity_shape tok.
Proof.
  unfold is_entity_reference. split.
  - destruct (entity tok) as [[m [| ? ?]] |] eqn:E; try discriminate.
    apply entity_sound in E as [Hm ->]. by rewrite app_nil_r.
  - intros H. pose proof (entity_complete tok [] H) as E.
    rewrite app_nil_r in E. by rewrite E.
Qed.





(** ** The default options *)

Lemma escapeHTML_default (s : jsstring) :
  escapeHTML (JString s) no_options
  = Normal (replace_all_tokens default_callback s)
  /\ escapeHTML (JString s) prevent_double_escape
     = Normal (replace_all_tokens default_callback s).
Proof. split; reflexivity. Qed.

Lemma entity_not_ampersand (c : N) (t : jsstring) :
  c <> 38 -> entity (c :: t) = None.
Proof.
  intros H. unfold entity, lit at 1.
  by destruct (N.eqb_spec c 38).
Qed.

Lemma token_plain (c : N) (t : jsstring) :
  c <> 38 ->
  token (c :: t) = if is_line_terminator c then None else Some ([c], t).
Proof.
  intros H. unfold token, alt. rewrite entity_not_ampersand by done.
  unfold dot, one. by destruct (is_line_terminator c).
Qed.

Lemma default_callback_entity (m : jsstring) :
  entity_shape m -> default_callback m = m.
Proof. apply keep_entity_shape. Qed.

(** For one code unit the default callback answers one of the five
    entities, or the code unit itself, which then is no ampersand. *)
Lemma default_callback_unit (c : N) :
  is_entity_reference (default_callback [c]) = true
  \/ (default_callback [c] = [c] /\ c <> 38).
Proof.
  unfold default_callback. rewrite keep_entity_unit.
  unfold replace_class, default_pattern, pattern_matches.
  cbn [flat_map existsb item_matches].
  destruct (N.eqb_spec 38 c) as [<- | H38]; [by left |].
  destruct (N.eqb_spec 60 c) as [<- | H60]; [by left |].
  destruct (N.eqb_spec 62 c) as [<- | H62]; [by left |].
  destruct (N.eqb_spec 34 c) as [<- | H34]; [by left |].
  destruct (N.eqb_spec 39 c) as [<- | H39]; [by left |].
  right. split; [reflexivity | congruence].
Qed.

(** What the default callback answers for one code unit is read back
    as it is by a second scan. *)
Lemma default_unit_stable (c : N) (t : jsstring) :
  is_line_terminator c = false ->
  replace_all_tokens default_callback (default_callback [c] ++ t)
  = default_callback [c] ++ replace_all_tokens default_callback t.
Proof.
  intros Hlt.
  destruct (default_callback_unit c) as [He | [Hc Hne]].
  - apply is_entity_reference_shape in He.
    rewrite (replace_all_token _ _ _ _ (token_entity _ t He)).
    by rewrite default_callback_entity.
  - assert (E : token (c :: t) = Some ([c], t)).
    { rewrite token_plain by done. by rewrite Hlt. }
    rewrite Hc. cbn [app].
    rewrite (replace_all_token _ _ _ _ E). by rewrite Hc.
Qed.

Lemma default_scan_idempotent (s : jsstring) :
  replace_all_tokens default_callback (replace_all_tokens default_callback s)
  = replace_all_tokens default_callback s.
Proof.
  remember (List.length s) as n eqn:Hn. revert s Hn.
  induction n as [n IH] using lt_wf_ind. intros s Hn.
  destruct s as [| c r]; [reflexivity |].
  destruct (token (c :: r)) as [[m rest] |] eqn:E.
  - pose proof (token_shorter _ _ _ E) as Hlen.
    rewrite (replace_all_token _ _ _ _ E).
    destruct (token_some _ _ _ E) as [Heq [Hm | (c' & -> & Hlt & Hent)]].
    + rewrite default_callback_entity by done.
      rewrite (replace_all_token _ _ _ _ (token_entity m _ Hm)).
      rewrite default_callback_entity by done.
      f_equal. apply (IH (List.length rest)); [lia | done].
    + rewrite default_unit_stable by done. f_equal.
      apply (IH (List.length rest)); [lia | done].
  - destruct (token_none _ _ E) as [Hent Hlt].
    rewrite (replace_all_skip _ _ _ E).
    assert (E' : token (c :: replace_all_tokens default_callback r) = None).
    { rewrite token_plain; [by rewrite Hlt |].
      intros ->. discriminate Hlt. }
    rewrite (replace_all_skip _ _ _ E'). f_equal.
    apply (IH (List.length r)); [| done]. subst n. cbn. lia.
Qed.

(** C1: under the default configuration, with [preventDoubleEscape]
    left out or set to true, [escapeHTML] returns for every string, and
    escaping its output again gives the same output. *)
Theorem escapeHTML_idempotent (s : jsstring) :
  exists once,
    escapeHTML (JString s) prevent_double_escape = Normal once
    /\ escapeHTML (JString once) prevent_double_escape = Normal once
    /\ escapeHTML (JString s) no_options = Normal once
    /\ escapeHTML (JString once) no_options = Normal once.
Proof.
  exists (replace_all_tokens default_callback s).
  destruct (escapeHTML_default s) as [-> ->].
  destruct (escapeHTML_default (replace_all_tokens default_callback s))
    as [-> ->].
  rewrite default_scan_idempotent. by repeat split.
Qed.


(** ** The character class and the effective escape set *)

Lemma regexClass_flat (set : list jsstring) :
  regexClass set
  = flat_map (fun c => if existsb (N.eqb c) class_specials
                       then [92; c] else [c]) (concat set).
Proof.
  unfold regexClass, escape_member.
  induction set as [| m set IH]; [reflexivity |].
  cbn [List.map concat]. by rewrite flat_map_app, IH.
Qed.

(** Reading the class text back gives the code units of the set, each
    protected one marked as such. *)
Lemma class_atoms_escaped (l : jsstring) :
  class_atoms (flat_map (fun c => if existsb (N.eqb c) class_specials
                                  then [92; c] else [c]) l)
  = List.map (fun c => (existsb (N.eqb c) class_specials, c)) l.
Proof.
  induction l as [| c l IH]; [reflexivity |].
  cbn [flat_map List.map].
  destruct (existsb (N.eqb c) class_specials) eqn:E.
  - cbn [app class_atoms]. rewrite N.eqb_refl. by rewrite IH.
  - cbn [app class_atoms].
    destruct (flat_map _ l) as [| d r] eqn:F.
    + destruct l as [| c' l']; [reflexivity |].
      cbn [flat_map] in F.
      destruct (existsb (N.eqb c') class_specials); discriminate F.
    + destruct (N.eqb_spec c 92) as [-> | _]; [discriminate E |].
      by rewrite IH.
Qed.

(** With no dash before the last of them, the atoms stand each for
    itself. *)
Lemma class_ranges_no_range (atoms : list (bool * N)) :
  forallb (fun a => negb (is_dash a)) (removelast atoms) = true ->
  class_ranges atoms = Normal (List.map (fun a => Single (snd a)) atoms).
Proof.
  induction atoms as [| a rest IH]; [reflexivity |].
  intros H. cbn [class_ranges List.map].
  destruct rest as [| d rest']; [reflexivity |].
  change (removelast (a :: d :: rest'))
    with (a :: removelast (d :: rest')) in H.
  cbn [forallb] in H. apply andb_true_iff in H as [_ H].
  rewrite (IH H).
  destruct rest' as [| b rest'']; [reflexivity |].
  change (removelast (d :: b :: rest''))
    with (d :: removelast (b :: rest'')) in H.
  cbn [forallb] in H. apply andb_true_iff in H as [Hd _].
  apply negb_true_iff in Hd. by rewrite Hd.
Qed.

Lemma removelast_map {A B : Type} (f : A -> B) (l : list A) :
  removelast (List.map f l) = List.map f (removelast l).
Proof.
  induction l as [| a [| b l] IH]; [reflexivity | reflexivity |].
  change (removelast (List.map f (a :: b :: l)))
    with (f a :: removelast (List.map f (b :: l))).
  by rewrite IH.
Qed.

Lemma new_pattern_no_range (set : list jsstring) :
  existsb (fun a => a =? 45) (removelast (concat set)) = false ->
  new_pattern (regexClass set) = Normal (List.map Single (concat set)).
Proof.
  intros H. unfold new_pattern.
  rewrite regexClass_flat, class_atoms_escaped.
  rewrite class_ranges_no_range.
  - by rewrite List.map_map.
  - rewrite removelast_map, forallb_forall. intros a Ha.
    apply in_map_iff in Ha as (c & <- & Hc).
    unfold is_dash. cbn [fst snd].
    destruct (N.eqb_spec c 45) as [-> | _];
      [| by rewrite andb_false_r].
    assert (existsb (fun a => a =? 45) (removelast (concat set)) = true);
      [| congruence].
    apply existsb_exists. by exists 45.
Qed.

Lemma pattern_matches_singles (l : jsstring) (c : N) :
  pattern_matches (List.map Single l) c = existsb (fun a => a =? c) l.
Proof.
  unfold pattern_matches. induction l as [| a l IH]; [reflexivity |].
  cbn. by rewrite IH.
Qed.

Lemma units_of_singles (set : list jsstring) (c : N) :
  forallb (fun m => Nat.eqb (List.length m) 1) set = true ->
  existsb (fun a => a =? c) (concat set) = existsb (str_eqb [c]) set.
Proof.
  induction set as [| m set IH]; [reflexivity |].
  cbn [forallb]. intros H. apply andb_true_iff in H as [Hm H].
  destruct m as [| a [| ? ?]]; try discriminate Hm.
  cbn [concat app existsb]. rewrite (IH H). f_equal.
  unfold str_eqb. destruct (N.eqb_spec a c) as [-> | Hne].
  - by rewrite bool_decide_eq_true_2.
  - rewrite bool_decide_eq_false_2; [done | congruence].
Qed.

Lemma removelast_units (set : list jsstring) :
  forallb (fun m => Nat.eqb (List.length m) 1) set = true ->
  removelast (concat set) = concat (removelast set)
  /\ forallb (fun m => Nat.eqb (List.length m) 1) (removelast set) = true.
Proof.
  induction set as [| m set IH]; [done |].
  cbn [forallb]. intros H. apply andb_true_iff in H as [Hm H].
  destruct m as [| a [| ? ?]]; try discriminate Hm.
  destruct set as [| m' set']; [done |].
  destruct (IH H) as [IH1 IH2].
  change (removelast ([a] :: m' :: set'))
    with ([a] :: removelast (m' :: set')).
  cbn [concat forallb]. rewrite <- IH1, IH2. split; [| done].
  destruct m' as [| b [| ? ?]]; try discriminate H.
  reflexivity.
Qed.

(** With single code units in the effective escape set and no hyphen
    before its last member, the class is compiled and matches the
    members of the set. *)
Lemma pattern_of_units (options : Options) :
  single_units options = true ->
  hyphen_only_last options = true ->
  exists pattern,
    new_pattern (regexClass (escapeSet options)) = Normal pattern
    /\ forall c, pattern_matches pattern c = in_escapeSet options c.
Proof.
  unfold single_units, hyphen_only_last, in_escapeSet. intros Hone Hdash.
  apply negb_true_iff in Hdash.
  exists (List.map Single (concat (escapeSet options))). split.
  - apply new_pattern_no_range.
    destruct (removelast_units _ Hone) as [-> Hone'].
    by rewrite units_of_singles.
  - intros c. by rewrite pattern_matches_singles, units_of_singles.
Qed.

Lemma replace_class_spec (options : Options) pattern (s : jsstring) :
  (forall c, pattern_matches pattern c = in_escapeSet options c) ->
  replace_class pattern (entityMap options) s = spec_escape options s.
Proof.
  intros H. unfold replace_class, spec_escape, spec_escape_unit.
  apply flat_map_ext. intros c. by rewrite H.
Qed.

Lemma replace_tokens_ext (f g : jsstring -> jsstring) (n : nat)
    (s : jsstring) :
  (forall m, entity_shape m \/ (exists c, m = [c]) -> f m = g m) ->
  replace_tokens n f s = replace_tokens n g s.
Proof.
  intros Hfg. revert s. induction n as [| n IH]; intros s; [reflexivity |].
  cbn [replace_tokens]. destruct s as [| c r]; [reflexivity |].
  destruct (token (c :: r)) as [[m rest] |] eqn:E.
  - rewrite IH. f_equal. apply Hfg.
    destruct (token_some _ _ _ E) as [_ [Hm | (c' & -> & _)]];
      [by left | right; by exists c'].
  - by rewrite IH.
Qed.

Lemma unit_is_no_entity (c : N) : is_entity_reference [c] = false.
Proof.
  destruct (is_entity_reference [c]) eqn:E; [| reflexivity].
  apply is_entity_reference_shape, entity_shape_head in E
    as (m' & Heq & _ & Hne).
  injection Heq as _ <-. by destruct Hne.
Qed.

(** On the tokens of the scan the callback is: entity references as
    they are, single code units as the specification says. *)
Lemma callback_agrees (options : Options) pattern (m : jsstring) :
  (forall c, pattern_matches pattern c = in_escapeSet options c) ->
  entity_shape m \/ (exists c, m = [c]) ->
  keep_entity pattern (entityMap options) m
  = if is_entity_reference m then m else spec_escape options m.
Proof.
  intros Hp [Hm | [c ->]].
  - rewrite keep_entity_shape by done.
    apply is_entity_reference_shape in Hm. by rewrite Hm.
  - rewrite keep_entity_unit, unit_is_no_entity.
    by apply replace_class_spec.
Qed.

Lemma replace_tokens_same (f : jsstring -> jsstring) (n : nat)
    (s : jsstring) :
  (forall m, entity_shape m \/ (exists c, m = [c]) -> f m = m) ->
  replace_tokens n f s = s.
Proof.
  intros Hf. revert s. induction n as [| n IH]; intros s; [reflexivity |].
  cbn [replace_tokens]. destruct s as [| c r]; [reflexivity |].
  destruct (token (c :: r)) as [[m rest] |] eqn:E.
  - rewrite IH.
    destruct (token_some _ _ _ E) as [-> [Hm | (c' & -> & _)]];
      (rewrite Hf; [reflexivity |]); [by left | right; by exists c'].
  - by rewrite IH.
Qed.

Lemma spec_escape_empty (options : Options) (s : jsstring) :
  escapeSet options = [] -> spec_escape options s = s.
Proof.
  intros Hset. unfold spec_escape, spec_escape_unit, in_escapeSet.
  rewrite Hset. cbn [existsb].
  induction s as [| c s IH]; [reflexivity |].
  cbn [flat_map app]. by rewrite IH.
Qed.

(** C4, amended: for a configuration whose effective escape set is
    made of single code units and holds no hyphen before its last member,
    [escapeHTML] returns; with [preventDoubleEscape] off every
    occurrence of a member of the set is replaced by its entity (or
    stays, when the entity map has no entry for it) and every other
    code unit stays as it is; with [preventDoubleEscape] on that
    replacement is applied to the tokens of the scan that are not
    entity references, which are copied; and when the effective escape
    set is empty the input comes back unchanged. *)
Theorem escapeHTML_effective_escape_set (options : Options)
    (input : jsstring) :
  single_units options = true ->
  hyphen_only_last options = true ->
  escapeHTML (JString input) options
  = Normal
      (if default true (preventDoubleEscape options)
       then replace_all_tokens
              (fun m => if is_entity_reference m then m
                        else spec_escape options m) input
       else spec_escape options input)
  /\ (escapeSet options = [] ->
      escapeHTML (JString input) options = Normal input).
Proof.
  intros Hone Hdash. split.
  - unfold escapeHTML.
    destruct (pattern_of_units options Hone Hdash) as (pattern & -> & Hp).
    destruct (escapeSet options) as [| m set] eqn:Hset.
    + cbn [List.length Nat.eqb]. f_equal.
      destruct (default true (preventDoubleEscape options));
        [| by rewrite spec_escape_empty].
      unfold replace_all_tokens. rewrite replace_tokens_same; [done |].
      intros m _. rewrite spec_escape_empty by done.
      by destruct (is_entity_reference m).
    + cbn [List.length Nat.eqb].
      destruct (default true (preventDoubleEscape options)); cbn [negb];
        f_equal.
      * unfold replace_all_tokens. apply replace_tokens_ext.
        intros tok Htok. by apply callback_agrees.
      * by apply replace_class_spec.
  - intros Hset. unfold escapeHTML. by rewrite Hset.
Qed.

Lemma escapeHTML_effective_escape_set_witness :
  single_units attribute_options = true
  /\ hyphen_only_last attribute_options = true
  /\ escapeHTML (JString (js "a=b-c<'&amp;'")) attribute_options
     = Normal (js "a&equals;b&#45;c&lt;'&amp;amp;'")
  /\ (escapeSet attribute_options = [] ->
      escapeHTML (JString (js "a=b-c<'&amp;'")) attribute_options
      = Normal (js "a=b-c<'&amp;'")).
Proof.
  repeat (split; [reflexivity |]).
  apply (escapeHTML_effective_escape_set attribute_options
           (js "a=b-c<'&amp;'")); reflexivity.
Defined.

(** C4, as worded: every occurrence of a member of the effective
    escape set would be replaced.  Under the default configuration the
    ampersand is a member, yet the one that opens [&amp;] stays. *)
Lemma ampersand_of_an_entity_is_kept :
  in_escapeSet no_options 38 = true
  /\ spec_escape no_options (js "&amp;") = js "&amp;amp;"
  /\ escapeHTML (JString (js "&amp;")) no_options = Normal (js "&amp;")
  /\ js "&amp;" <> js "&amp;amp;".
Proof. repeat split; try (vm_compute; reflexivity). discriminate. Qed.

(** ** Outside the hypotheses above *)

(** A hyphen between two members of the set is read as a range: here
    [<], excluded from the set, lies between ['] and [x] and is
    escaped all the same. *)
Remark hyphen_is_read_as_a_range :
  in_escapeSet {| extra := Some (OfString (js "-x"));
                  exclude := Some (OfString (js "<"));
                  map := None; preventDoubleEscape := None |} 60 = false
  /\ escapeHTML (JString (js "<"))
       {| extra := Some (OfString (js "-x"));
          exclude := Some (OfString (js "<"));
          map := None; preventDoubleEscape := None |}
     = Normal (js "&lt;").
Proof. split; vm_compute; reflexivity. Qed.

(** A hyphen that comes last stands for itself. *)
Remark hyphen_last_is_literal :
  escapeHTML (JString (js "a-b+c"))
    {| extra := None; exclude := None;
       map := Some [(js "-", js "&#45;")]; preventDoubleEscape := None |}
  = Normal (js "a&#45;b+c").
Proof. vm_compute. reflexivity. Qed.

(** Followed by another member it is not: the class then holds the
    range from ['] to [+], and the hyphen itself is not escaped. *)
Remark hyphen_before_a_member_is_lost :
  escapeHTML (JString (js "a-b+c"))
    {| extra := Some (OfString (js "+")); exclude := None;
       map := Some [(js "-", js "&#45;")]; preventDoubleEscape := None |}
  = Normal (js "a-b+c").
Proof. vm_compute. reflexivity. Qed.

(** A member of two code units is looked for one code unit at a time:
    its entity is never used. *)
Remark longer_member_is_split :
  existsb (str_eqb (js "ab"))
    (escapeSet {| extra := None; exclude := None;
                  map := Some [(js "ab", js "&ab;")];
                  preventDoubleEscape := None |}) = true
  /\ escapeHTML (JString (js "ab"))
       {| extra := None; exclude := None;
          map := Some [(js "ab", js "&ab;")];
          preventDoubleEscape := None |}
     = Normal (js "ab").
Proof. split; vm_compute; reflexivity. Qed.

(** A range out of order makes the constructor of the pattern throw. *)
Remark range_out_of_order_throws :
  escapeHTML (JString (js "a"))
    {| extra := Some (OfString (js "z-a")); exclude := None;
       map := None; preventDoubleEscape := None |}
  = Throw.
Proof. vm_compute. reflexivity. Qed.

(** The tokenizer's [.] passes over a line terminator, which then is
    not escaped even when it belongs to the set. *)
Remark line_terminator_is_passed_over :
  escapeHTML (JString [97; 10; 98])
    {| extra := Some (OfString [10]); exclude := None;
       map := Some [([10], js "<br>")]; preventDoubleEscape := None |}
  = Normal [97; 10; 98]
  /\ escapeHTML (JString [97; 10; 98])
       {| extra := Some (OfString [10]); exclude := None;
          map := Some [([10], js "<br>")];
          preventDoubleEscape := Some false |}
     = Normal (js "a<br>b").
Proof. split; vm_compute; reflexivity. Qed.

End EscapeHTMLFacts.

(** * Further properties of [truncate] *)
Section TruncateMore.
Import Truncate.

Lemma drop_while_split (p : N -> bool) (l : jsstring) :
  exists a, l = a ++ drop_while p l /\ forallb p a = true.
Proof.
  induction l as [| c l (a & Hl & Ha)]; [by exists [] |].
  cbn [drop_while]. destruct (p c) eqn:Hc.
  - exists (c :: a). cbn. rewrite Hc, Ha. split; [by rewrite Hl at 1 | done].
  - by exists [].
Qed.

Lemma drop_while_head (p : N -> bool) (l : jsstring) :
  match drop_while p l with c :: _ => p c = false | [] => True end.
Proof.
  induction l as [| c l IH]; [done |].
  cbn [drop_while]. by destruct (p c) eqn:Hc.
Qed.

(** [trimEnd] cuts whitespace off the end, and all of it. *)
Lemma trimEnd_split (s : jsstring) :
  exists ws, s = trimEnd s ++ ws /\ forallb is_trimmable ws = true.
Proof.
  destruct (drop_while_split is_trimmable (rev s)) as (a & Hs & Ha).
  exists (rev a). split.
  - unfold trimEnd. rewrite <- rev_app_distr, <- Hs. by rewrite rev_involutive.
  - rewrite forallb_forall in *. intros c Hc. apply Ha. by apply in_rev.
Qed.

Lemma trimEnd_last (s : jsstring) :
  match rev (trimEnd s) with
  | c :: _ => is_trimmable c = false
  | [] => True
  end.
Proof.
  unfold trimEnd. rewrite rev_involutive. apply drop_while_head.
Qed.

Lemma slice0_firstn (s : jsstring) (n : Z) :
  (0 <= n)%Z -> slice0 s n = firstn (Z.to_nat n) s.
Proof.
  intros Hn. unfold slice0, str_length.
  destruct (Z.ltb_spec n 0); [lia |].
  destruct (Z.le_gt_cases n (Z.of_nat (List.length s))).
  - by rewrite Z.min_l.
  - rewrite Z.min_r by lia. rewrite Nat2Z.id.
    rewrite firstn_all. symmetry. apply firstn_all2. lia.
Qed.

(** Where [lastIndexOf] finds the code unit, and that it is the last. *)
Lemma lastIndexOf_from_spec (c : N) (s : jsstring) (i found : Z) :
  (lastIndexOf_from c s i found = found
   /\ forallb (fun d => negb (d =? c)) s = true)
  \/ (exists k : nat,
        lastIndexOf_from c s i found = (i + Z.of_nat k)%Z
        /\ nth_error s k = Some c
        /\ forallb (fun d => negb (d =? c)) (skipn (S k) s) = true).
Proof.
  revert i found. induction s as [| d s IH]; intros i found; [by left |].
  cbn [lastIndexOf_from].
  destruct (IH (i + 1)%Z (if d =? c then i else found))
    as [[Hr Hno] | (k & Hr & Hk & Hno)].
  - destruct (N.eqb_spec d c) as [-> | Hne].
    + right. exists 0%nat. rewrite Hr. cbn. split; [lia | done].
    + left. rewrite Hr. split; [done |]. cbn.
      destruct (N.eqb_spec d c); [done | done].
  - right. exists (S k). rewrite Hr. split; [lia | done].
Qed.

Lemma lastIndexOf_spec (s : jsstring) (c : N) :
  (lastIndexOf s c = (-1)%Z /\ forallb (fun d => negb (d =? c)) s = true)
  \/ (exists k : nat,
        lastIndexOf s c = Z.of_nat k
        /\ nth_error s k = Some c
        /\ forallb (fun d => negb (d =? c)) (skipn (S k) s) = true).
Proof.
  unfold lastIndexOf.
  destruct (lastIndexOf_from_spec c s 0 (-1)) as [H | (k & H1 & H2)];
    [by left | right; by exists k].
Qed.

(** What is kept of a text that is too long. *)
Lemma truncate_kept (text : jsstring) (length : Z) (options : Options) :
  (0 < length)%Z -> (length < str_length text)%Z ->
  exists n : nat,
    truncate (JString text) length options
    = trimEnd (firstn n text) ++ default (js "...") (ellipsis options)
    /\ (Z.of_nat n <= length)%Z
    /\ (n = Z.to_nat length
        \/ (default false (wordSafe options) = true
            /\ (0 < n)%nat
            /\ nth_error text n = Some 32
            /\ forallb (fun d => negb (d =? 32))
                 (skipn (S n) (firstn (Z.to_nat length) text)) = true)).
Proof.
  intros Hpos Hlt. unfold truncate.
  destruct (Z.leb_spec length 0); [lia |].
  destruct (Z.leb_spec (str_length text) length); [lia |].
  rewrite slice0_firstn by lia.
  destruct (default false (wordSafe options)) eqn:Hw.
  - destruct (lastIndexOf_spec (firstn (Z.to_nat length) text) 32)
      as [[-> _] | (k & -> & Hk & Hno)].
    + exists (Z.to_nat length). cbn. split; [done |]. split; [lia | by left].
    + rewrite nth_error_firstn in Hk.
      destruct (Nat.ltb_spec k (Z.to_nat length)) as [Hkl |]; [| done].
      destruct (Z.gtb_spec (Z.of_nat k) 0).
      * exists k. rewrite slice0_firstn by lia.
        rewrite Nat2Z.id, firstn_firstn, Nat.min_l by lia.
        split; [done |]. split; [lia |]. right.
        repeat split; [lia | done | done].
      * exists (Z.to_nat length). split; [done |]. split; [lia | by left].
  - exists (Z.to_nat length). split; [done |]. split; [lia | by left].
Qed.

(** X1: a text longer than a positive [length] comes back as a prefix
    of itself, of at most [length] code units and with no white space
    at its end, followed by the ellipsis; so the result is never longer
    than [length] plus the ellipsis. *)
Theorem truncate_keeps_a_prefix (text : jsstring) (length : Z)
    (options : Options) :
  (0 < length)%Z -> (length < str_length text)%Z ->
  exists kept rest,
    truncate (JString text) length options
    = kept ++ default (js "...") (ellipsis options)
    /\ text = kept ++ rest
    /\ (str_length kept <= length)%Z
    /\ match rev kept with
       | c :: _ => is_trimmable c = false
       | [] => True
       end
    /\ (str_length (truncate (JString text) length options)
        <= length + str_length (default (js "...") (ellipsis options)))%Z.
Proof.
  intros Hpos Hlt.
  destruct (truncate_kept text length options Hpos Hlt) as (n & -> & Hn & _).
  destruct (trimEnd_split (firstn n text)) as (ws & Hws & _).
  assert (Hlen : (str_length (trimEnd (firstn n text)) <= length)%Z).
  { pose proof (firstn_le_length n text) as Hle.
    rewrite Hws, length_app in Hle. unfold str_length. lia. }
  exists (trimEnd (firstn n text)), (ws ++ skipn n text).
  split; [done |]. split.
  - rewrite app_assoc, <- Hws. by rewrite firstn_skipn.
  - split; [done |]. split; [apply trimEnd_last |].
    unfold str_length in *. rewrite length_app. lia.
Qed.

Lemma truncate_keeps_a_prefix_witness :
  (0 < 4)%Z /\ (4 < str_length (js "ab  cdef"))%Z
  /\ exists kept rest,
       truncate (JString (js "ab  cdef")) 4 no_options
       = kept ++ default (js "...") (ellipsis no_options)
       /\ js "ab  cdef" = kept ++ rest
       /\ (str_length kept <= 4)%Z
       /\ match rev kept with
          | c :: _ => is_trimmable c = false
          | [] => True
          end
       /\ (str_length (truncate (JString (js "ab  cdef")) 4 no_options)
           <= 4 + str_length (default (js "...") (ellipsis no_options)))%Z.
Proof.
  split; [lia |]. split; [vm_compute; reflexivity |].
  apply (truncate_keeps_a_prefix (js "ab  cdef") 4 no_options);
    [lia | vm_compute; reflexivity].
Defined.

(** X2: with [wordSafe], when one of the first [length] code units
    after the first is a space, the text is cut at the last such space:
    what is kept is followed in the text by white space that ends with
    that space, and no space lies between it and the limit. *)
Theorem truncate_wordSafe_cuts_at_last_space (text : jsstring)
    (length : Z) (options : Options) (i : nat) :
  default false (wordSafe options) = true ->
  (0 < length)%Z -> (length < str_length text)%Z ->
  (0 < i)%nat -> (Z.of_nat i < length)%Z -> nth_error text i = Some 32 ->
  exists kept ws rest,
    truncate (JString text) length options
    = kept ++ default (js "...") (ellipsis options)
    /\ text = kept ++ ws ++ 32 :: rest
    /\ forallb is_trimmable ws = true
    /\ (i <= List.length (kept ++ ws))%nat
    /\ (Z.of_nat (List.length (kept ++ ws)) < length)%Z
    /\ forallb (fun d => negb (d =? 32))
         (firstn (Z.to_nat length - S (List.length (kept ++ ws))) rest)
       = true.
Proof.
  intros Hw Hpos Hlt Hi Hil Hsp. unfold truncate.
  destruct (Z.leb_spec length 0); [lia |].
  destruct (Z.leb_spec (str_length text) length); [lia |].
  rewrite Hw, slice0_firstn by lia.
  destruct (lastIndexOf_spec (firstn (Z.to_nat length) text) 32)
    as [[_ Hno] | (k & -> & Hk & Hno)].
  - exfalso. rewrite forallb_forall in Hno.
    assert (Hin : In 32 (firstn (Z.to_nat length) text)).
    { apply (nth_error_In _ i). rewrite nth_error_firstn.
      destruct (Nat.ltb_spec i (Z.to_nat length)); [done | lia]. }
    by specialize (Hno _ Hin).
  - rewrite nth_error_firstn in Hk.
    destruct (Nat.ltb_spec k (Z.to_nat length)) as [Hkl |]; [| done].
    assert (Hik : (i <= k)%nat).
    { destruct (Nat.le_gt_cases i k) as [| Hgt]; [done |]. exfalso.
      rewrite forallb_forall in Hno.
      assert (Hin : In 32 (skipn (S k) (firstn (Z.to_nat length) text))).
      { apply (nth_error_In _ (i - S k)). rewrite nth_error_skipn.
        replace (S k + (i - S k))%nat with i by lia.
        rewrite nth_error_firstn.
        destruct (Nat.ltb_spec i (Z.to_nat length)); [done | lia]. }
      by specialize (Hno _ Hin). }
    destruct (Z.gtb_spec (Z.of_nat k) 0); [| lia].
    rewrite slice0_firstn by lia.
    rewrite Nat2Z.id, firstn_firstn, Nat.min_l by lia.
    destruct (trimEnd_split (firstn k text)) as (ws & Hws & Hall).
    assert (Hlen : List.length (trimEnd (firstn k text) ++ ws) = k).
    { rewrite <- Hws. apply firstn_length_le.
      apply Nat.lt_le_incl. apply nth_error_Some. congruence. }
    exists (trimEnd (firstn k text)), ws, (skipn (S k) text).
    split; [done |]. split.
    + rewrite app_assoc, <- Hws. symmetry. by apply firstn_skipn_middle.
    + split; [done |]. rewrite Hlen. split; [done |]. split; [lia |].
      rewrite skipn_firstn_comm in Hno. exact Hno.
Qed.

Lemma truncate_wordSafe_cuts_at_last_space_witness :
  default false (wordSafe {| wordSafe := Some true; ellipsis := None |})
  = true
  /\ (0 < 10)%Z /\ (10 < str_length (js "One word and two words."))%Z
  /\ (0 < 3)%nat /\ (Z.of_nat 3 < 10)%Z
  /\ nth_error (js "One word and two words.") 3 = Some 32
  /\ exists kept ws rest,
       truncate (JString (js "One word and two words.")) 10
         {| wordSafe := Some true; ellipsis := None |}
       = kept ++ default (js "...")
                   (ellipsis {| wordSafe := Some true; ellipsis := None |})
       /\ js "One word and two words." = kept ++ ws ++ 32 :: rest
       /\ forallb is_trimmable ws = true
       /\ (3 <= List.length (kept ++ ws))%nat
       /\ (Z.of_nat (List.length (kept ++ ws)) < 10)%Z
       /\ forallb (fun d => negb (d =? 32))
            (firstn (Z.to_nat 10 - S (List.length (kept ++ ws))) rest)
          = true.
Proof.
  split; [reflexivity |]. split; [lia |].
  split; [vm_compute; reflexivity |]. split; [lia |]. split; [lia |].
  split; [reflexivity |].
  apply (truncate_wordSafe_cuts_at_last_space
           (js "One word and two words.") 10
           {| wordSafe := Some true; ellipsis := None |} 3);
    [reflexivity | lia | vm_compute; reflexivity | lia | lia | reflexivity].
Defined.

(** X3: with [wordSafe], when none of the first [length] code units
    after the first is a space, the text is cut as it is without
    [wordSafe]. *)
Theorem truncate_wordSafe_without_space (text : jsstring) (length : Z)
    (ellipsis : option jsstring) :
  (0 < length)%Z -> (length < str_length text)%Z ->
  forallb (fun d => negb (d =? 32)) (skipn 1 (firstn (Z.to_nat length) text))
  = true ->
  truncate (JString text) length
    {| wordSafe := Some true; ellipsis := ellipsis |}
  = truncate (JString text) length
      {| wordSafe := Some false; ellipsis := ellipsis |}.
Proof.
  intros Hpos Hlt Hno. unfold truncate.
  destruct (Z.leb_spec length 0); [lia |].
  destruct (Z.leb_spec (str_length text) length); [lia |].
  cbn [default wordSafe]. rewrite slice0_firstn by lia.
  destruct (lastIndexOf_spec (firstn (Z.to_nat length) text) 32)
    as [[-> _] | (k & -> & Hk & _)]; [done |].
  destruct k as [| k]; [done |]. exfalso.
  rewrite forallb_forall in Hno.
  assert (Hin : In 32 (skipn 1 (firstn (Z.to_nat length) text))).
  { apply (nth_error_In _ k). by rewrite nth_error_skipn. }
  by specialize (Hno _ Hin).
Qed.

Lemma truncate_wordSafe_without_space_witness :
  (0 < 10)%Z /\ (10 < str_length (js "Supercalifragilistic"))%Z
  /\ forallb (fun d => negb (d =? 32))
       (skipn 1 (firstn (Z.to_nat 10) (js "Supercalifragilistic"))) = true
  /\ truncate (JString (js "Supercalifragilistic")) 10
       {| wordSafe := Some true; ellipsis := None |}
     = truncate (JString (js "Supercalifragilistic")) 10
         {| wordSafe := Some false; ellipsis := None |}.
Proof.
  split; [lia |]. split; [vm_compute; reflexivity |].
  split; [reflexivity |].
  apply (truncate_wordSafe_without_space (js "Supercalifragilistic") 10 None);
    [lia | vm_compute; reflexivity | reflexivity].
Defined.

End TruncateMore.

(** * Further properties of [passwordStrength] *)
Section PasswordStrengthMore.
Import PasswordStrength.

Lemma push_if_nil (c : bool) (r : jsstring) (reasons : list jsstring) :
  push_if c r reasons = [] <-> c = false /\ reasons = [].
Proof.
  unfold push_if. destruct c.
  - split; [| intros [H _]; discriminate H].
    intros H. by apply app_eq_nil in H as [_ H].
  - split; [done | by intros [_ H]].
Qed.

(** X4: the score of a string lies between 0 and 4 and the label is one
    of the five; within the length bounds the label is the one the
    score selects, outside them it is ["weak"]. *)
Theorem score_and_label_ranges (p : jsstring) (rules : Rules) :
  (0 <= score (passwordStrength (JString p) rules) <= 4)%Z
  /\ In (label (passwordStrength (JString p) rules)) labels
  /\ label (passwordStrength (JString p) rules)
     = if ((str_length p <? default 8%Z (minLength rules))
           || (str_length p >? default 128%Z (maxLength rules)))%Z
       then js "weak"
       else nth (Z.to_nat (score (passwordStrength (JString p) rules)))
              labels [].
Proof.
  assert (Hs : (0 <= score (passwordStrength (JString p) rules) <= 4)%Z).
  { unfold passwordStrength. cbn [score]. unfold bonus.
    destruct (existsb is_lower p), (existsb is_upper p),
      (existsb is_digit p), (existsb (fun c => negb (is_alnum c)) p),
      (str_length p >=? 12)%Z, (str_length p >=? 16)%Z; cbn; lia. }
  assert (Hl : label (passwordStrength (JString p) rules)
     = if ((str_length p <? default 8%Z (minLength rules))
           || (str_length p >? default 128%Z (maxLength rules)))%Z
       then js "weak"
       else nth (Z.to_nat (score (passwordStrength (JString p) rules)))
              labels []).
  { unfold passwordStrength. cbn [label score].
    destruct (str_length p <? default 8%Z (minLength rules))%Z,
      (str_length p >? default 128%Z (maxLength rules))%Z; reflexivity. }
  split; [exact Hs |]. split; [| exact Hl].
  rewrite Hl.
  destruct ((str_length p <? default 8%Z (minLength rules))
            || (str_length p >? default 128%Z (maxLength rules)))%Z;
    [by left |].
  remember (score (passwordStrength (JString p) rules)) as n eqn:Hn.
  clear Hn Hl.
  assert (Hcases : n = 0%Z \/ n = 1%Z \/ n = 2%Z \/ n = 3%Z \/ n = 4%Z)
    by lia.
  destruct Hcases as [-> | [-> | [-> | [-> | ->]]]]; cbn; tauto.
Qed.

(** X5: a string gets no reasons exactly when its length is within the
    bounds and it has a character of each class the rules require. *)
Theorem no_reasons_iff_rules_met (p : jsstring) (rules : Rules) :
  reasons (passwordStrength (JString p) rules) = []
  <-> (default 8%Z (minLength rules) <= str_length p
       <= default 128%Z (maxLength rules))%Z
      /\ (default true (requireLowercase rules) = true ->
          existsb is_lower p = true)
      /\ (default true (requireUppercase rules) = true ->
          existsb is_upper p = true)
      /\ (default true (requireNumber rules) = true ->
          existsb is_digit p = true)
      /\ (default true (requireSymbol rules) = true ->
          existsb (fun c => negb (is_alnum c)) p = true).
Proof.
  unfold passwordStrength. cbn [reasons].
  rewrite !push_if_nil.
  destruct (Z.ltb_spec (str_length p) (default 8%Z (minLength rules))),
    (Z.gtb_spec (str_length p) (default 128%Z (maxLength rules))),
    (default true (requireLowercase rules)),
    (default true (requireUppercase rules)),
    (default true (requireNumber rules)),
    (default true (requireSymbol rules)),
    (existsb is_lower p), (existsb is_upper p), (existsb is_digit p),
    (existsb (fun c => negb (is_alnum c)) p);
    cbn; split; intros; try lia; intuition (try discriminate; try lia).
Qed.

(** X6: when the rules require all four classes, a string without
    reasons has score 4 and the label ["very_strong"]. *)
Theorem no_reasons_is_very_strong (p : jsstring) (rules : Rules) :
  default true (requireLowercase rules) = true ->
  default true (requireUppercase rules) = true ->
  default true (requireNumber rules) = true ->
  default true (requireSymbol rules) = true ->
  reasons (passwordStrength (JString p) rules) = [] ->
  score (passwordStrength (JString p) rules) = 4%Z
  /\ label (passwordStrength (JString p) rules) = js "very_strong".
Proof.
  intros Hl Hu Hn Hs. unfold passwordStrength. cbn [reasons score label].
  rewrite !push_if_nil, Hl, Hu, Hn, Hs. cbn [andb].
  intros (H4 & H3 & H2 & H1 & Hmax & Hmin & _).
  apply negb_false_iff in H1, H2, H3, H4.
  rewrite H1, H2, H3, H4, Hmin, Hmax.
  destruct (str_length p >=? 12)%Z, (str_length p >=? 16)%Z; by split.
Qed.

Lemma no_reasons_is_very_strong_witness :
  default true (requireLowercase no_rules) = true
  /\ default true (requireUppercase no_rules) = true
  /\ default true (requireNumber no_rules) = true
  /\ default true (requireSymbol no_rules) = true
  /\ reasons (passwordStrength (JString (js "Abc123!@#")) no_rules) = []
  /\ score (passwordStrength (JString (js "Abc123!@#")) no_rules) = 4%Z
  /\ label (passwordStrength (JString (js "Abc123!@#")) no_rules)
     = js "very_strong".
Proof.
  repeat (split; [reflexivity |]).
  apply (no_reasons_is_very_strong (js "Abc123!@#") no_rules); reflexivity.
Defined.

End PasswordStrengthMore.

Section PasswordStrengthOrder.
Import PasswordStrength.

Lemma bonus_mono (a b : bool) :
  (a = true -> b = true) -> (bonus a <= bonus b)%Z.
Proof. destruct a, b; cbn; intros H; try lia. Qed.

(** X7: characters added to a password, at either end, never lower its
    score. *)
Theorem longer_password_scores_no_less (before p after : jsstring)
    (rules rules' : Rules) :
  (score (passwordStrength (JString p) rules)
   <= score (passwordStrength (JString (before ++ p ++ after)) rules'))%Z.
Proof.
  rewrite !score_formula.
  assert (Hcls : forall f : N -> bool,
            existsb f p = true -> existsb f (before ++ p ++ after) = true).
  { intros f H. rewrite !existsb_app, H. by rewrite orb_true_r. }
  assert (Hlen : (str_length p <= str_length (before ++ p ++ after))%Z).
  { unfold str_length. rewrite !length_app. lia. }
  pose proof (bonus_mono _ _ (Hcls is_lower)).
  pose proof (bonus_mono _ _ (Hcls is_upper)).
  pose proof (bonus_mono _ _ (Hcls is_digit)).
  pose proof (bonus_mono _ _ (Hcls (fun c => negb (is_alnum c)))).
  assert (bonus (str_length p >=? 12)%Z
          <= bonus (str_length (before ++ p ++ after) >=? 12)%Z)%Z.
  { apply bonus_mono. rewrite !Z.geb_le. lia. }
  assert (bonus (str_length p >=? 16)%Z
          <= bonus (str_length (before ++ p ++ after) >=? 16)%Z)%Z.
  { apply bonus_mono. rewrite !Z.geb_le. lia. }
  lia.
Qed.
End PasswordStrengthOrder.

(** * Further properties of the in-memory adapter *)
Section MemoryAdapterMore.
Import MemoryAdapter.

Lemma has_set (key key' : jsstring) (val : value) (m : store) :
  has key' (set key val m) = bool_decide (key = key') || has key' m.
Proof.
  unfold has, set. destruct (decide (key = key')) as [-> | Hne].
  - rewrite lookup_insert_eq, bool_decide_eq_true_2 by done.
    by rewrite bool_decide_eq_true_2.
  - rewrite lookup_insert_ne by done.
    by rewrite (bool_decide_eq_false_2 (key = key')).
Qed.

Lemma get_set (key key' : jsstring) (val : value) (m : store) :
  get key' (set key val m) = if bool_decide (key = key') then val
                             else get key' m.
Proof.
  unfold get, set. destruct (decide (key = key')) as [-> | Hne].
  - by rewrite lookup_insert_eq, bool_decide_eq_true_2.
  - by rewrite lookup_insert_ne, bool_decide_eq_false_2.
Qed.

(** X8: what [set] stores under a key is what [get] reads back, the key
    is there afterwards, the other keys keep their values, and the size
    grows by one exactly when the key was not there. *)
Theorem set_then_get (key key' : jsstring) (val : value) (m : store) :
  get key (set key val m) = val
  /\ has key (set key val m) = true
  /\ (key <> key' ->
      get key' (set key val m) = get key' m
      /\ has key' (set key val m) = has key' m)
  /\ size (set key val m) = (if has key m then size m else size m + 1)%Z.
Proof.
  split; [by rewrite get_set, bool_decide_eq_true_2 |].
  split; [by rewrite has_set, bool_decide_eq_true_2 |].
  split.
  - intros Hne. by rewrite get_set, has_set, !bool_decide_eq_false_2.
  - unfold size, set, has. destruct (m !! key) as [v |] eqn:E.
    + rewrite bool_decide_eq_true_2 by by exists v.
      f_equal. rewrite <- (insert_id m key v E) at 2.
      rewrite <- (insert_delete_eq m). rewrite <- (insert_delete_eq m key v).
      rewrite !map_size_insert_None by apply lookup_delete_eq. done.
    + rewrite bool_decide_eq_false_2 by (intros [? ?]; congruence).
      rewrite map_size_insert_None by done. lia.
Qed.

(** X9: [delete] answers whether the key was there; afterwards it is
    not, the other keys keep their values, and the size has shrunk by
    one exactly when the key was there. *)
Theorem delete_removes (key key' : jsstring) (m : store) :
  fst (delete key m) = has key m
  /\ has key (snd (delete key m)) = false
  /\ get key (snd (delete key m)) = Undefined
  /\ (key <> key' ->
      get key' (snd (delete key m)) = get key' m
      /\ has key' (snd (delete key m)) = has key' m)
  /\ size m = (if has key m then size (snd (delete key m)) + 1
               else size (snd (delete key m)))%Z.
Proof.
  unfold delete, has, get, size. cbn [fst snd].
  split; [done |]. rewrite lookup_delete_eq.
  split; [by rewrite bool_decide_eq_false_2 by (intros [? ?]; congruence) |].
  split; [done |]. split.
  - intros Hne. by rewrite lookup_delete_ne.
  - destruct (m !! key) as [v |] eqn:E.
    + rewrite bool_decide_eq_true_2 by by exists v.
      rewrite <- (insert_id m key v E) at 1.
      rewrite <- (insert_delete_eq m).
      rewrite map_size_insert_None by apply lookup_delete_eq. lia.
    + rewrite bool_decide_eq_false_2 by (intros [? ?]; congruence).
      by rewrite delete_id.
Qed.

Lemma get_mset_other (entries : list (jsstring * value)) (key : jsstring)
    (m : store) :
  ~ In key (List.map fst entries) ->
  get key (mset entries m) = get key m.
Proof.
  unfold mset. revert m. induction entries as [| [k v] entries IH];
    intros m Hnot; [done |].
  cbn [fold_left fst snd]. rewrite IH.
  - rewrite get_set, bool_decide_eq_false_2; [done |].
    intros ->. apply Hnot. by left.
  - intros Hin. apply Hnot. by right.
Qed.

Lemma get_mset_entry (entries : list (jsstring * value)) (key : jsstring)
    (val : value) (m : store) :
  List.NoDup (List.map fst entries) -> In (key, val) entries ->
  get key (mset entries m) = val.
Proof.
  revert m. induction entries as [| [k v] entries IH]; intros m Hnd Hin;
    [destruct Hin |].
  cbn [List.map fst] in Hnd. apply List.NoDup_cons_iff in Hnd as [Hk Hnd].
  destruct Hin as [Heq | Hin].
  - injection Heq as -> ->.
    change (mset ((key, val) :: entries) m)
      with (mset entries (set key val m)).
    rewrite get_mset_other by done.
    by rewrite get_set, bool_decide_eq_true_2.
  - change (mset ((k, v) :: entries) m) with (mset entries (set k v m)).
    by apply IH.
Qed.

(** X10: after [mset] of entries with distinct keys, [mget] of these
    keys gives the values of the entries in the same order, a key that
    no entry names keeps its value, and [mset] of one list after another
    is [mset] of the two in a row (so a later entry wins). *)
Theorem mset_then_mget (entries more : list (jsstring * value))
    (m : store) :
  List.NoDup (List.map fst entries) ->
  mget (List.map fst entries) (mset entries m) = List.map snd entries
  /\ (forall key, ~ In key (List.map fst entries) ->
      get key (mset entries m) = get key m)
  /\ mset (entries ++ more) m = mset more (mset entries m).
Proof.
  intros Hnd. split; [| split].
  - unfold mget. rewrite List.map_map. apply map_ext_in.
    intros [k v] Hin. cbn [fst snd]. by apply get_mset_entry.
  - intros key Hnot. by apply get_mset_other.
  - unfold mset. apply fold_left_app.
Qed.

Lemma mset_then_mget_witness :
  List.NoDup (List.map fst [(js "a", Num (Int 1)); (js "b", Null)])
  /\ mget (List.map fst [(js "a", Num (Int 1)); (js "b", Null)])
       (mset [(js "a", Num (Int 1)); (js "b", Null)] constructor)
     = List.map snd [(js "a", Num (Int 1)); (js "b", Null)]
  /\ (forall key,
        ~ In key (List.map fst [(js "a", Num (Int 1)); (js "b", Null)]) ->
        get key (mset [(js "a", Num (Int 1)); (js "b", Null)] constructor)
        = get key constructor)
  /\ mset ([(js "a", Num (Int 1)); (js "b", Null)]
           ++ [(js "a", Num (Int 2))]) constructor
     = mset [(js "a", Num (Int 2))]
         (mset [(js "a", Num (Int 1)); (js "b", Null)] constructor).
Proof.
  assert (Hnd : List.NoDup (List.map fst [(js "a", Num (Int 1)); (js "b", Null)])).
  { apply List.NoDup_cons; [| apply List.NoDup_cons; [| apply List.NoDup_nil]].
    - intros [H | []]. discriminate H.
    - intros []. }
  split; [exact Hnd |].
  apply (mset_then_mget [(js "a", Num (Int 1)); (js "b", Null)]
           [(js "a", Num (Int 2))] constructor Hnd).
Defined.

(** X11: [incr] leaves a record that the next [incr] counts on: the
    second call returns what the first returned plus its own delta, and
    the key is there afterwards. *)
Theorem incr_twice (key : jsstring) (d1 d2 : number)
    (now1 now2 now3 now4 : Z) (m : store) :
  fst (incr key d2 now3 now4 (snd (incr key d1 now1 now2 m)))
  = num_add (fst (incr key d1 now1 now2 m)) d2
  /\ has key (snd (incr key d1 now1 now2 m)) = true
  /\ prop_v (get key (snd (incr key d1 now1 now2 m)))
     = Num (fst (incr key d1 now1 now2 m)).
Proof.
  unfold incr. cbn [fst snd].
  rewrite !get_set, !bool_decide_eq_true_2 by done.
  rewrite has_set, bool_decide_eq_true_2 by done. by repeat split.
Qed.


End MemoryAdapterMore.

(** * Further properties of [validateUsername] *)
Section ValidateUsernameMore.
Import ValidateUsername.

Lemma vu_push_if_nil (c : bool) (r : jsstring) (reasons : list jsstring) :
  push_if c r reasons = [] <-> c = false /\ reasons = [].
Proof.
  unfold push_if. destruct c.
  - split; [| intros [H _]; discriminate H].
    intros H. by apply app_eq_nil in H as [_ H].
  - split; [done | by intros [_ H]].
Qed.

Lemma push_if_in (r : jsstring) (reasons : list jsstring) :
  In r (push_if true r reasons).
Proof. unfold push_if. apply in_or_app. right. by left. Qed.

Lemma check_disallow_incl (disallow : list RegExp) (value x : jsstring)
    (reasons : list jsstring) :
  In x reasons -> In x (check_disallow disallow value reasons).
Proof.
  unfold check_disallow. revert reasons.
  induction disallow as [| re l IH]; intros reasons H; [done |].
  cbn [fold_left]. apply IH. by apply push_if_incl.
Qed.

Lemma check_disallow_reports (disallow : list RegExp) (re : RegExp)
    (value : jsstring) (reasons : list jsstring) :
  In re disallow -> test re value = true ->
  In (js "disallowed_pattern:" ++ source re)
     (check_disallow disallow value reasons).
Proof.
  unfold check_disallow. revert reasons.
  induction disallow as [| re' l IH]; intros reasons Hin Ht; [destruct Hin |].
  cbn [fold_left]. destruct Hin as [-> | Hin]; [| by apply IH].
  apply (check_disallow_incl l). rewrite Ht. apply push_if_in.
Qed.

Lemma check_disallow_nil (disallow : list RegExp) (value : jsstring)
    (reasons : list jsstring) :
  check_disallow disallow value reasons = [] ->
  reasons = [] /\ forall re, In re disallow -> test re value = false.
Proof.
  unfold check_disallow. revert reasons.
  induction disallow as [| re l IH]; intros reasons H; [done |].
  cbn [fold_left] in H. apply IH in H as [H Hl].
  apply vu_push_if_nil in H as [Hre ->]. split; [done |].
  intros re' [<- | Hin]; [done | by apply Hl].
Qed.

Lemma check_consecutive_incl (chars : list jsstring) (value x : jsstring)
    (reasons reasons' : list jsstring) :
  check_consecutive chars value reasons = Normal reasons' ->
  In x reasons -> In x reasons'.
Proof.
  revert reasons. induction chars as [| ch l IH]; intros reasons H Hin.
  - injection H as <-. done.
  - cbn [check_consecutive] in H.
    destruct (repeat_regexp (escapeRegExp ch)) as [re |]; [| discriminate H].
    apply (IH _ H). by apply push_if_incl.
Qed.

Lemma check_consecutive_reports (chars : list jsstring) (c : N)
    (value : jsstring) (reasons reasons' : list jsstring) :
  check_consecutive chars value reasons = Normal reasons' ->
  In [c] chars -> occurs [c; c] value = true ->
  In (js "consecutive:" ++ [c]) reasons'.
Proof.
  revert reasons. induction chars as [| ch l IH]; intros reasons H Hin Hocc;
    [destruct Hin |].
  cbn [check_consecutive] in H.
  destruct (repeat_regexp (escapeRegExp ch)) as [re |] eqn:E;
    [| discriminate H].
  destruct Hin as [-> | Hin]; [| by apply (IH _ H)].
  apply (check_consecutive_incl _ _ _ _ _ H).
  destruct (repeat_regexp_nonempty [c]) as (c' & Hc & E'); [done |].
  cbn in Hc. subst c'. rewrite E' in E. injection E as <-.
  cbn [app]. rewrite Hocc. apply push_if_in.
Qed.

Lemma check_consecutive_nil (chars : list jsstring) (value : jsstring)
    (reasons : list jsstring) :
  check_consecutive chars value reasons = Normal [] ->
  reasons = []
  /\ forall c, In [c] chars -> occurs [c; c] value = false.
Proof.
  revert reasons. induction chars as [| ch l IH]; intros reasons H.
  - injection H as ->. done.
  - cbn [check_consecutive] in H.
    destruct (repeat_regexp (escapeRegExp ch)) as [re |] eqn:E;
      [| discriminate H].
    apply IH in H as [H Hl]. apply vu_push_if_nil in H as [Hre ->].
    split; [done |]. intros c [-> | Hin]; [| by apply Hl].
    destruct (repeat_regexp_nonempty [c]) as (c' & Hc & E'); [done |].
    cbn in Hc. subst c'. rewrite E' in E. by injection E as <-.
Qed.

Lemma check_custom_nil custom (value : jsstring) (reasons : list jsstring) :
  check_custom custom value reasons = [] ->
  reasons = []
  /\ forall fn, In fn custom ->
       fn value <> Throw
       /\ forall msg, fn value = Normal (JString msg) -> msg = [].
Proof.
  unfold check_custom. revert reasons.
  induction custom as [| fn l IH]; intros reasons H; [done |].
  cbn [fold_left] in H. apply IH in H as [H Hl].
  assert (Hfn : reasons = []
                /\ fn value <> Throw
                /\ forall msg, fn value = Normal (JString msg) -> msg = []).
  { unfold run_custom in H.
    destruct (fn value) as [[| | b | n | res |] |];
      try (split; [exact H | split; [discriminate | discriminate]]).
    - apply vu_push_if_nil in H as [Hres ->]. split; [done |].
      split; [discriminate |]. intros msg Hmsg. injection Hmsg as <-.
      apply negb_false_iff in Hres. unfold str_eqb in Hres.
      by apply bool_decide_eq_true in Hres.
    - by apply app_eq_nil in H as [_ H]. }
  destruct Hfn as (-> & Hthrow & Hmsg). split; [done |].
  intros fn' [<- | Hin]; [done | by apply Hl].
Qed.

Lemma check_custom_reports custom fn (value msg : jsstring)
    (reasons : list jsstring) :
  In fn custom -> fn value = Normal (JString msg) -> msg <> [] ->
  In msg (check_custom custom value reasons).
Proof.
  unfold check_custom. revert reasons.
  induction custom as [| g l IH]; intros reasons Hin Hfn Hne;
    [destruct Hin |].
  cbn [fold_left]. destruct Hin as [-> | Hin]; [| by apply IH].
  apply (check_custom_incl l). unfold run_custom. rewrite Hfn.
  unfold str_eqb. rewrite bool_decide_eq_false_2 by done. apply push_if_in.
Qed.

(** What [validateUsername] returns for a string that the whitelist
    does not settle. *)
Lemma validateUsername_collects (username : jsstring)
    (rules : UsernameRules) (r : UsernameResult) :
  validateUsername (JString username) rules = Normal r ->
  listed (whitelist rules) (value r) = false ->
  normalized rules username = Normal (value r)
  /\ ok r = (List.length (reasons r) =? 0)%nat
  /\ exists r1 r2,
       r1 = check_disallow (default [] (disallow rules)) (value r)
              (push_if (fails (endsWith rules) (value r)) (js "bad_end")
              (push_if (fails (startsWith rules) (value r)) (js "bad_start")
              (push_if (fails (allowed rules) (value r)) (js "invalid_chars")
              (push_if (str_length (value r) >? default 64%Z (max rules))%Z
                 (js "too_long")
              (push_if (str_length (value r) <? default 1%Z (min rules))%Z
                 (js "too_short") [])))))
       /\ consecutive_rule rules (value r) r1 = Normal r2
       /\ reasons r
          = check_custom (default [] (custom rules)) (value r)
              (push_if (listed (blacklist rules) (value r))
                 (js "blacklisted") r2).
Proof.
  unfold validateUsername. intros H Hw.
  destruct (normalized rules username) as [v |]; [| discriminate H].
  destruct (listed (whitelist rules) v) eqn:Hwv.
  - injection H as <-. cbn in Hw. congruence.
  - destruct (consecutive_rule rules v _) as [rs |] eqn:E;
      [| discriminate H].
    injection H as <-. cbn [value ok reasons].
    split; [done |]. split; [done |]. eexists. exists rs.
    split; [reflexivity |]. split; [exact E | done].
Qed.

Lemma consecutive_rule_incl (rules : UsernameRules) (value x : jsstring)
    (reasons reasons' : list jsstring) :
  consecutive_rule rules value reasons = Normal reasons' ->
  In x reasons -> In x reasons'.
Proof.
  unfold consecutive_rule.
  destruct (noConsecutive rules) as [c |];
    [destruct (gt_zero (length_of c)) |];
    try (intros H; injection H as <-; done).
  apply check_consecutive_incl.
Qed.

Lemma consecutive_rule_reports (rules : UsernameRules) (l : list jsstring)
    (c : N) (value : jsstring) (reasons reasons' : list jsstring) :
  consecutive_rule rules value reasons = Normal reasons' ->
  noConsecutive rules = Some (ArrayOf l) ->
  In [c] l -> occurs [c; c] value = true ->
  In (js "consecutive:" ++ [c]) reasons'.
Proof.
  unfold consecutive_rule. intros H Hl Hin Hocc. rewrite Hl in H.
  cbn [length_of gt_zero items_of] in H.
  destruct (Z.gtb_spec (Z.of_nat (List.length l)) 0) as [_ | Hlen].
  - by apply (check_consecutive_reports _ _ _ _ _ H).
  - destruct l; [destruct Hin | cbn in Hlen; lia].
Qed.

Lemma consecutive_rule_nil (rules : UsernameRules) (value : jsstring)
    (reasons : list jsstring) :
  consecutive_rule rules value reasons = Normal [] ->
  reasons = []
  /\ forall l c, noConsecutive rules = Some (ArrayOf l) ->
       In [c] l -> occurs [c; c] value = false.
Proof.
  unfold consecutive_rule.
  destruct (noConsecutive rules) as [[l | l] |].
  - cbn [length_of gt_zero items_of].
    destruct (Z.gtb_spec (Z.of_nat (List.length l)) 0) as [_ | Hlen].
    + intros H. apply check_consecutive_nil in H as [-> Hl].
      split; [done |]. intros l' c Heq. injection Heq as <-. apply Hl.
    + intros H. injection H as ->. split; [done |].
      intros l' c Heq Hin. injection Heq as <-.
      destruct l; [destruct Hin | cbn in Hlen; lia].
  - intros H. injection H as ->. split; [done |]. intros l' c Heq.
    discriminate Heq.
  - intros H. injection H as ->. split; [done |]. intros l' c Heq.
    discriminate Heq.
Qed.

(** X13: every rule that a name breaks is reported.  When the whitelist
    does not settle the matter, the reasons hold [too_short],
    [too_long], [invalid_chars], [bad_start], [bad_end], one entry for
    each [disallow] pattern that matches, one for each character of a
    [noConsecutive] array that occurs twice in a row, [blacklisted], and
    each non-empty message of a custom predicate, whenever the rule in
    question is broken; and the value returned is the normalized one. *)
Theorem broken_rules_are_reported (username : jsstring)
    (rules : UsernameRules) (r : UsernameResult) :
  validateUsername (JString username) rules = Normal r ->
  listed (whitelist rules) (value r) = false ->
  normalized rules username = Normal (value r)
  /\ ((str_length (value r) < default 1%Z (min rules))%Z ->
      In (js "too_short") (reasons r))
  /\ ((default 64%Z (max rules) < str_length (value r))%Z ->
      In (js "too_long") (reasons r))
  /\ (fails (allowed rules) (value r) = true ->
      In (js "invalid_chars") (reasons r))
  /\ (fails (startsWith rules) (value r) = true ->
      In (js "bad_start") (reasons r))
  /\ (fails (endsWith rules) (value r) = true ->
      In (js "bad_end") (reasons r))
  /\ (forall re, In re (default [] (disallow rules)) ->
      test re (value r) = true ->
      In (js "disallowed_pattern:" ++ source re) (reasons r))
  /\ (forall l c, noConsecutive rules = Some (ArrayOf l) -> In [c] l ->
      occurs [c; c] (value r) = true ->
      In (js "consecutive:" ++ [c]) (reasons r))
  /\ (listed (blacklist rules) (value r) = true ->
      In (js "blacklisted") (reasons r))
  /\ (forall fn msg, In fn (default [] (custom rules)) ->
      fn (value r) = Normal (JString msg) -> msg <> [] ->
      In msg (reasons r)).
Proof.
  intros H Hw.
  destruct (validateUsername_collects _ _ _ H Hw)
    as (Hnorm & _ & r1 & r2 & Hr1 & Hr2 & Hr).
  split; [exact Hnorm |].
  assert (Hlate : forall x, In x r2 -> In x (reasons r)).
  { intros x Hx. rewrite Hr. apply check_custom_incl.
    by apply push_if_incl. }
  assert (Hmid : forall x, In x r1 -> In x (reasons r)).
  { intros x Hx. apply Hlate. by apply (consecutive_rule_incl _ _ _ _ _ Hr2). }
  repeat split.
  - intros Hlt. apply Hmid. rewrite Hr1. apply check_disallow_incl.
    do 4 apply push_if_incl.
    destruct (Z.ltb_spec (str_length (value r)) (default 1%Z (min rules)));
      [apply push_if_in | lia].
  - intros Hgt. apply Hmid. rewrite Hr1. apply check_disallow_incl.
    do 3 apply push_if_incl.
    destruct (Z.gtb_spec (str_length (value r)) (default 64%Z (max rules)));
      [apply push_if_in | lia].
  - intros Hf. apply Hmid. rewrite Hr1. apply check_disallow_incl.
    do 2 apply push_if_incl. rewrite Hf. apply push_if_in.
  - intros Hf. apply Hmid. rewrite Hr1. apply check_disallow_incl.
    apply push_if_incl. rewrite Hf. apply push_if_in.
  - intros Hf. apply Hmid. rewrite Hr1. apply check_disallow_incl.
    rewrite Hf. apply push_if_in.
  - intros re Hin Ht. apply Hmid. rewrite Hr1.
    by apply check_disallow_reports.
  - intros l c Hl Hin Hocc. apply Hlate.
    by apply (consecutive_rule_reports _ _ _ _ _ _ Hr2 Hl).
  - intros Hb. rewrite Hr. apply check_custom_incl. rewrite Hb.
    apply push_if_in.
  - intros fn msg Hin Hfn Hne. rewrite Hr.
    by apply (check_custom_reports _ fn).
Qed.

Lemma broken_rules_are_reported_witness :
  validateUsername (JString (js " a__b "))
    {| min := Some 5%Z; max := None; allowed := None; startsWith := None;
       endsWith := None; disallow := None; blacklist := None;
       whitelist := None; noConsecutive := Some (ArrayOf [js "_"]);
       normalize := Some trim_rule; custom := None |}
  = Normal {| ok := false;
              reasons := [js "too_short"; js "consecutive:_"];
              value := js "a__b" |}
  /\ listed None (js "a__b") = false
  /\ In (js "too_short") [js "too_short"; js "consecutive:_"]
  /\ In (js "consecutive:" ++ [95]) [js "too_short"; js "consecutive:_"].
Proof.
  split; [reflexivity |]. split; [reflexivity |].
  pose proof (broken_rules_are_reported (js " a__b ")
    {| min := Some 5%Z; max := None; allowed := None; startsWith := None;
       endsWith := None; disallow := None; blacklist := None;
       whitelist := None; noConsecutive := Some (ArrayOf [js "_"]);
       normalize := Some trim_rule; custom := None |}
    {| ok := false; reasons := [js "too_short"; js "consecutive:_"];
       value := js "a__b" |} eq_refl eq_refl)
    as (_ & Hshort & _ & _ & _ & _ & _ & Hcons & _).
  split.
  - apply Hshort. vm_compute. reflexivity.
  - apply (Hcons [js "_"] 95); [reflexivity | by left | reflexivity].
Defined.

(** X14: a name that is accepted without the help of the whitelist
    breaks no rule: its length is within the bounds, the [allowed],
    [startsWith] and [endsWith] patterns match, no [disallow] pattern
    does, no character of a [noConsecutive] array occurs twice in a
    row, the name is not blacklisted, and no custom predicate throws or
    returns a non-empty message. *)
Theorem accepted_name_meets_rules (username : jsstring)
    (rules : UsernameRules) (r : UsernameResult) :
  validateUsername (JString username) rules = Normal r ->
  listed (whitelist rules) (value r) = false ->
  ok r = true ->
  (default 1%Z (min rules) <= str_length (value r)
   <= default 64%Z (max rules))%Z
  /\ fails (allowed rules) (value r) = false
  /\ fails (startsWith rules) (value r) = false
  /\ fails (endsWith rules) (value r) = false
  /\ (forall re, In re (default [] (disallow rules)) ->
      test re (value r) = false)
  /\ (forall l c, noConsecutive rules = Some (ArrayOf l) -> In [c] l ->
      occurs [c; c] (value r) = false)
  /\ listed (blacklist rules) (value r) = false
  /\ (forall fn, In fn (default [] (custom rules)) ->
      fn (value r) <> Throw
      /\ forall msg, fn (value r) = Normal (JString msg) -> msg = []).
Proof.
  intros H Hw Hok.
  destruct (validateUsername_collects _ _ _ H Hw)
    as (_ & Hokr & r1 & r2 & Hr1 & Hr2 & Hr).
  rewrite Hokr in Hok. apply Nat.eqb_eq in Hok.
  apply length_zero_iff_nil in Hok. rewrite Hok in Hr. symmetry in Hr.
  apply check_custom_nil in Hr as [Hb Hcustom].
  apply vu_push_if_nil in Hb as [Hblack ->].
  apply consecutive_rule_nil in Hr2 as [-> Hcons].
  symmetry in Hr1. apply check_disallow_nil in Hr1 as [Hr1 Hdis].
  apply vu_push_if_nil in Hr1 as [Hend Hr1].
  apply vu_push_if_nil in Hr1 as [Hstart Hr1].
  apply vu_push_if_nil in Hr1 as [Hallowed Hr1].
  apply vu_push_if_nil in Hr1 as [Hmax Hr1].
  apply vu_push_if_nil in Hr1 as [Hmin _].
  apply Z.ltb_ge in Hmin.
  assert (str_length (value r) <= default 64%Z (max rules))%Z.
  { destruct (Z.gtb_spec (str_length (value r)) (default 64%Z (max rules)));
      [discriminate Hmax | lia]. }
  repeat split; try done; try lia; by apply Hcustom.
Qed.

Lemma accepted_name_meets_rules_witness :
  validateUsername (JString (js "johndoe")) (plain_rules (Some 3%Z) (Some 12%Z))
  = Normal {| ok := true; reasons := []; value := js "johndoe" |}
  /\ listed (whitelist (plain_rules (Some 3%Z) (Some 12%Z))) (js "johndoe")
     = false
  /\ (3 <= str_length (js "johndoe") <= 12)%Z.
Proof.
  split; [reflexivity |]. split; [reflexivity |].
  apply (accepted_name_meets_rules (js "johndoe")
           (plain_rules (Some 3%Z) (Some 12%Z))
           {| ok := true; reasons := []; value := js "johndoe" |});
    reflexivity.
Defined.


End ValidateUsernameMore.

Section ValidateUsernameOrder.
Import ValidateUsername.

Lemma push_if_app (c : bool) (r : jsstring) (reasons : list jsstring) :
  push_if c r reasons = reasons ++ (if c then [r] else []).
Proof. unfold push_if. destruct c; [done | by rewrite app_nil_r]. Qed.

Lemma check_disallow_app (disallow : list RegExp) (value : jsstring)
    (reasons : list jsstring) :
  check_disallow disallow value reasons
  = reasons
    ++ List.map (fun re => js "disallowed_pattern:" ++ source re)
         (List.filter (fun re => test re value) disallow).
Proof.
  unfold check_disallow. revert reasons.
  induction disallow as [| re l IH]; intros reasons;
    [by rewrite app_nil_r |].
  cbn [fold_left List.filter]. rewrite IH, push_if_app.
  destruct (test re value); [| by rewrite app_nil_r].
  cbn [List.map]. by rewrite <- app_assoc.
Qed.

Lemma check_consecutive_app (chars : list jsstring) (value : jsstring)
    (reasons reasons' : list jsstring) :
  check_consecutive chars value reasons = Normal reasons' ->
  exists found,
    check_consecutive chars value [] = Normal found
    /\ reasons' = reasons ++ found.
Proof.
  assert (H : forall acc acc',
    check_consecutive chars value acc = Normal acc' ->
    exists more, acc' = acc ++ more
      /\ forall rs, check_consecutive chars value rs = Normal (rs ++ more)).
  { induction chars as [| ch l IH]; intros acc acc' H.
    - injection H as <-. exists []. rewrite app_nil_r. split; [done |].
      intros rs. by rewrite app_nil_r.
    - cbn [check_consecutive] in *.
      destruct (repeat_regexp (escapeRegExp ch)) as [re |]; [| discriminate H].
      apply IH in H as (more & -> & Hall). rewrite push_if_app.
      exists ((if re value then [js "consecutive:" ++ ch] else []) ++ more).
      split; [by rewrite app_assoc |].
      intros rs. by rewrite Hall, push_if_app, app_assoc. }
  intros Hf. destruct (H _ _ Hf) as (more & Heq & Hall).
  exists more. split; [apply (Hall []) | done].
Qed.

Lemma consecutive_rule_app (rules : UsernameRules) (value : jsstring)
    (reasons reasons' : list jsstring) :
  consecutive_rule rules value reasons = Normal reasons' ->
  exists found,
    consecutive_rule rules value [] = Normal found
    /\ reasons' = reasons ++ found.
Proof.
  unfold consecutive_rule.
  destruct (noConsecutive rules) as [c |];
    [destruct (gt_zero (length_of c)) |];
    try (intros H; injection H as <-; exists []; by rewrite app_nil_r).
  apply check_consecutive_app.
Qed.

Lemma check_custom_app custom (value : jsstring) (reasons : list jsstring) :
  check_custom custom value reasons
  = reasons ++ check_custom custom value [].
Proof.
  unfold check_custom. revert reasons.
  assert (Hrun : forall fn rs,
            run_custom fn value rs = rs ++ run_custom fn value []).
  { intros fn rs. unfold run_custom.
    destruct (fn value) as [[| | b | n | res |] |];
      try by rewrite app_nil_r.
    - rewrite !push_if_app. done.
    - done. }
  induction custom as [| fn l IH]; intros reasons;
    [by rewrite app_nil_r |].
  cbn [fold_left]. rewrite IH, (IH (run_custom fn value [])), Hrun.
  by rewrite app_assoc.
Qed.

(** X16: the reasons come in the order of the rules: first those of the
    length, of [allowed], of [startsWith] and of [endsWith], then one
    for each [disallow] pattern that matches, in the order of the
    patterns, then those of [noConsecutive], then [blacklisted], then
    those of the custom predicates. *)
Theorem reasons_follow_rule_order (username : jsstring)
    (rules : UsernameRules) (r : UsernameResult) :
  validateUsername (JString username) rules = Normal r ->
  listed (whitelist rules) (value r) = false ->
  exists consecutive,
    consecutive_rule rules (value r) [] = Normal consecutive
    /\ reasons r
       = (if (str_length (value r) <? default 1%Z (min rules))%Z
          then [js "too_short"] else [])
         ++ (if (str_length (value r) >? default 64%Z (max rules))%Z
             then [js "too_long"] else [])
         ++ (if fails (allowed rules) (value r)
             then [js "invalid_chars"] else [])
         ++ (if fails (startsWith rules) (value r)
             then [js "bad_start"] else [])
         ++ (if fails (endsWith rules) (value r)
             then [js "bad_end"] else [])
         ++ List.map (fun re => js "disallowed_pattern:" ++ source re)
              (List.filter (fun re => test re (value r))
                 (default [] (disallow rules)))
         ++ consecutive
         ++ (if listed (blacklist rules) (value r)
             then [js "blacklisted"] else [])
         ++ check_custom (default [] (custom rules)) (value r) [].
Proof.
  intros H Hw.
  destruct (validateUsername_collects _ _ _ H Hw)
    as (_ & _ & r1 & r2 & Hr1 & Hr2 & Hr).
  apply consecutive_rule_app in Hr2 as (found & Hfound & ->).
  exists found. split; [exact Hfound |].
  rewrite Hr, check_custom_app, push_if_app, Hr1, check_disallow_app.
  rewrite !push_if_app. cbn [app]. by rewrite <- !app_assoc.
Qed.

Lemma reasons_follow_rule_order_witness :
  validateUsername (JString (js "a__b"))
    {| min := Some 5%Z; max := Some 3%Z; allowed := None;
       startsWith := None; endsWith := None; disallow := None;
       blacklist := Some (ArrayOf [js "a__b"]); whitelist := None;
       noConsecutive := Some (ArrayOf [js "_"]); normalize := None;
       custom := Some [fun _ => Throw] |}
  = Normal {| ok := false;
              reasons := [js "too_short"; js "too_long";
                          js "consecutive:_"; js "blacklisted";
                          js "custom_validator_error"];
              value := js "a__b" |}
  /\ exists consecutive : list jsstring,
       Normal [js "consecutive:_"] = Normal consecutive
       /\ [js "too_short"; js "too_long"; js "consecutive:_";
           js "blacklisted"; js "custom_validator_error"]
          = [js "too_short"] ++ [js "too_long"] ++ [] ++ [] ++ [] ++ []
            ++ consecutive ++ [js "blacklisted"]
            ++ [js "custom_validator_error"].
Proof.
  split; [reflexivity |].
  apply (reasons_follow_rule_order (js "a__b")
    {| min := Some 5%Z; max := Some 3%Z; allowed := None;
       startsWith := None; endsWith := None; disallow := None;
       blacklist := Some (ArrayOf [js "a__b"]); whitelist := None;
       noConsecutive := Some (ArrayOf [js "_"]); normalize := None;
       custom := Some [fun _ => Throw] |}
    {| ok := false;
       reasons := [js "too_short"; js "too_long"; js "consecutive:_";
                   js "blacklisted"; js "custom_validator_error"];
       value := js "a__b" |}); reflexivity.
Defined.

End ValidateUsernameOrder.

(** * Further properties of [escapeHTML] *)
Section EscapeHTMLMore.
Import EscapeHTML.

(** ** The entity map and the escape set *)

Lemma str_eqb_eq (a b : jsstring) : str_eqb a b = true <-> a = b.
Proof. unfold str_eqb. apply bool_decide_eq_true. Qed.

Lemma str_eqb_refl (a : jsstring) : str_eqb a a = true.
Proof. by apply str_eqb_eq. Qed.

Lemma str_eqb_neq (a b : jsstring) : a <> b -> str_eqb a b = false.
Proof. intros H. unfold str_eqb. by apply bool_decide_eq_false_2. Qed.

Lemma obj_get_set (o : object) (k v k' : jsstring) :
  obj_get (obj_set o k v) k' = if str_eqb k k' then Some v else obj_get o k'.
Proof.
  induction o as [| [k0 v0] o IH]; cbn [obj_set obj_get].
  - destruct (str_eqb k k'); reflexivity.
  - destruct (str_eqb k0 k) eqn:E0.
    + apply str_eqb_eq in E0 as ->. cbn [obj_get].
      destruct (str_eqb k k'); reflexivity.
    + cbn [obj_get]. rewrite IH.
      destruct (str_eqb k0 k') eqn:E1; [| reflexivity].
      apply str_eqb_eq in E1 as ->.
      destruct (str_eqb k k') eqn:E2; [| reflexivity].
      apply str_eqb_eq in E2 as ->. rewrite str_eqb_refl in E0.
      discriminate E0.
Qed.

Lemma obj_get_in (o : object) (k : jsstring) :
  In k (List.map fst o) <-> obj_get o k <> None.
Proof.
  induction o as [| [k0 v0] o IH]; cbn [List.map fst obj_get In];
    [tauto |].
  destruct (str_eqb k0 k) eqn:E.
  - apply str_eqb_eq in E as ->. split; [discriminate | by left].
  - rewrite <- IH. split; [intros [-> | H]; [| done] | by right].
    rewrite str_eqb_refl in E. discriminate E.
Qed.

Lemma in_insert_index (n : N) (k x : jsstring) (l : list (N * jsstring)) :
  In x (List.map snd (insert_index n k l))
  <-> x = k \/ In x (List.map snd l).
Proof.
  induction l as [| [m k'] l IH]; cbn [insert_index List.map snd In].
  - split; [intros [<- | []]; by left | intros [-> | []]; by left].
  - destruct (n <=? m); cbn [List.map snd In]; [| rewrite IH];
      intuition congruence.
Qed.

Lemma in_index_keys (ks : list jsstring) (x : jsstring) :
  In x (List.map snd (index_keys ks))
  <-> In x ks /\ array_index x <> None.
Proof.
  induction ks as [| k ks IH]; cbn [index_keys List.map In]; [tauto |].
  destruct (array_index k) as [n |] eqn:E.
  - rewrite in_insert_index, IH. split.
    + intros [-> | [H1 H2]]; [split; [by left | congruence] | tauto].
    + intros [[<- | H1] H2]; [by left | right; tauto].
  - rewrite IH. split; [tauto |].
    intros [[<- | H1] H2]; [congruence | tauto].
Qed.

(** [Object.keys] lists the keys of the object, each once in its own
    place. *)
Lemma in_Object_keys (o : object) (k : jsstring) :
  In k (Object_keys o) <-> obj_get o k <> None.
Proof.
  rewrite <- obj_get_in. unfold Object_keys.
  rewrite in_app_iff, in_index_keys, filter_In.
  destruct (array_index k) eqn:E; split; intros H.
  - destruct H as [[H _] | [_ H]]; [done | discriminate H].
  - left. split; [done | congruence].
  - destruct H as [[_ H] | [H _]]; [congruence | done].
  - right. by split.
Qed.

Lemma obj_get_spread (target src : object) (k : jsstring) :
  obj_get (spread target src) k
  = match obj_get src k with
    | Some v => Some v
    | None => obj_get target k
    end.
Proof.
  unfold spread.
  assert (Hfold : forall ks t,
    obj_get (fold_left (fun t k => match obj_get src k with
                                   | Some v => obj_set t k v
                                   | None => t
                                   end) ks t) k
    = if existsb (str_eqb k) ks
      then match obj_get src k with
           | Some v => Some v
           | None => obj_get t k
           end
      else obj_get t k).
  { induction ks as [| k0 ks IH]; intros t; [reflexivity |].
    cbn [fold_left existsb]. rewrite IH.
    destruct (obj_get src k0) as [v0 |] eqn:E0.
    - rewrite obj_get_set.
      destruct (str_eqb k k0) eqn:E.
      + apply str_eqb_eq in E as ->. rewrite str_eqb_refl, E0. cbn [orb].
        by destruct (existsb (str_eqb k0) ks).
      + cbn [orb]. destruct (str_eqb k0 k) eqn:E'.
        * apply str_eqb_eq in E' as ->. rewrite str_eqb_refl in E.
          discriminate E.
        * reflexivity.
    - destruct (str_eqb k k0) eqn:E; [| reflexivity].
      apply str_eqb_eq in E as ->. rewrite E0. cbn [orb].
      by destruct (existsb (str_eqb k0) ks). }
  rewrite Hfold.
  destruct (existsb (str_eqb k) (Object_keys src)) eqn:E; [reflexivity |].
  destruct (obj_get src k) as [v |] eqn:Ek; [| reflexivity].
  assert (Hin : In k (Object_keys src)).
  { apply in_Object_keys. congruence. }
  assert (existsb (str_eqb k) (Object_keys src) = true); [| congruence].
  apply existsb_exists. exists k. split; [done | apply str_eqb_refl].
Qed.

(** X17: in the entity map an entry of [map] wins over the default one,
    and a character without an entry of its own keeps the default. *)
Theorem entityMap_override_wins (options : Options) (k : jsstring) :
  obj_get (entityMap options) k
  = match obj_get (default [] (map options)) k with
    | Some v => Some v
    | None => obj_get baseMap k
    end.
Proof.
  unfold entityMap. rewrite !obj_get_spread.
  destruct (obj_get (default [] (map options)) k); [reflexivity |].
  by destruct (obj_get baseMap k).
Qed.

Lemma in_Set_add (s : list jsstring) (x y : jsstring) :
  In y (Set_add s x) <-> In y s \/ y = x.
Proof.
  unfold Set_add. destruct (existsb (str_eqb x) s) eqn:E.
  - split; [by left |]. intros [H | ->]; [done |].
    apply existsb_exists in E as (z & Hz & Hxz).
    by apply str_eqb_eq in Hxz as ->.
  - rewrite in_app_iff. cbn. split.
    + intros [H | [<- | []]]; [by left | by right].
    + intros [H | ->]; [by left | right; by left].
Qed.

Lemma NoDup_Set_add (s : list jsstring) (x : jsstring) :
  List.NoDup s -> List.NoDup (Set_add s x).
Proof.
  intros H. unfold Set_add. destruct (existsb (str_eqb x) s) eqn:E; [done |].
  apply List.NoDup_app; [done | |].
  - apply List.NoDup_cons; [intros [] | apply List.NoDup_nil].
  - intros y Hy [-> | []].
    assert (existsb (str_eqb y) s = true); [| congruence].
    apply existsb_exists. exists y. split; [done | apply str_eqb_refl].
Qed.

Lemma new_Set_spec (l : list jsstring) :
  List.NoDup (new_Set l) /\ forall x, In x (new_Set l) <-> In x l.
Proof.
  unfold new_Set.
  assert (H : forall acc, List.NoDup acc ->
    List.NoDup (fold_left Set_add l acc)
    /\ forall x, In x (fold_left Set_add l acc) <-> In x acc \/ In x l).
  { induction l as [| y l IH]; intros acc Hacc; cbn [fold_left In];
      [split; [done | tauto] |].
    destruct (IH (Set_add acc y) (NoDup_Set_add _ _ Hacc)) as [Hnd Hin].
    split; [done |]. intros x. rewrite Hin, in_Set_add.
    intuition congruence. }
  destruct (H [] (List.NoDup_nil _)) as [Hnd Hin]. split; [done |].
  intros x. rewrite Hin. cbn. tauto.
Qed.

Lemma Set_delete_all_spec (excluded s : list jsstring) :
  List.NoDup s ->
  List.NoDup (fold_left Set_delete excluded s)
  /\ forall x, In x (fold_left Set_delete excluded s)
               <-> In x s /\ ~ In x excluded.
Proof.
  revert s. induction excluded as [| y l IH]; intros s Hs; cbn [fold_left In];
    [split; [done | tauto] |].
  assert (Hd : List.NoDup (Set_delete s y)) by by apply List.NoDup_filter.
  destruct (IH _ Hd) as [Hnd Hin]. split; [done |].
  intros x. rewrite Hin. unfold Set_delete. rewrite filter_In.
  destruct (str_eqb x y) eqn:E.
  - apply str_eqb_eq in E as ->. cbn. intuition (try discriminate; auto).
  - cbn. split; [intros [[H _] H']; split; [done |] | tauto].
    intros [<- | H'']; [| done]. rewrite str_eqb_refl in E. discriminate E.
Qed.

(** X18: the effective escape set holds each of its members once, and
    its members are the keys of the entity map (the five defaults and
    the keys of [map]) and the characters of [extra], less the
    characters of [exclude]. *)
Theorem escapeSet_members (options : Options) (m : jsstring) :
  List.NoDup (escapeSet options)
  /\ (In m (escapeSet options)
      <-> (In m [[38]; [60]; [62]; [34]; [39]]
           \/ obj_get (default [] (map options)) m <> None
           \/ In m (toChars (default (OfString []) (extra options))))
          /\ ~ In m (toChars (default (OfString []) (exclude options)))).
Proof.
  unfold escapeSet.
  destruct (new_Set_spec (toChars (default (OfString []) (extra options))))
    as [_ Hextra].
  destruct (new_Set_spec (toChars (default (OfString []) (exclude options))))
    as [_ Hexclude].
  destruct (new_Set_spec
              (Object_keys (entityMap options)
               ++ new_Set (toChars (default (OfString []) (extra options)))))
    as [Hnd Hall].
  destruct (Set_delete_all_spec
              (new_Set (toChars (default (OfString []) (exclude options))))
              _ Hnd) as [Hnd' Hin].
  split; [exact Hnd' |].
  rewrite Hin, Hall, in_app_iff, Hextra, Hexclude, in_Object_keys.
  assert (Hkeys : obj_get (entityMap options) m <> None
                  <-> In m [[38]; [60]; [62]; [34]; [39]]
                      \/ obj_get (default [] (map options)) m <> None).
  { unfold entityMap. rewrite obj_get_spread.
    destruct (obj_get (default [] (map options)) m) as [v |].
    - split; [intros _; by right | discriminate].
    - rewrite obj_get_spread. cbn [obj_get].
      pose proof (obj_get_in baseMap m) as Hb.
      change (List.map fst baseMap)
        with [[38]; [60]; [62]; [34]; [39]] in Hb.
      rewrite Hb. destruct (obj_get baseMap m); tauto. }
  rewrite Hkeys. tauto.
Qed.


(** ** What the output is made of *)

Lemma replace_class_app pattern entityMap (a b : jsstring) :
  replace_class pattern entityMap (a ++ b)
  = replace_class pattern entityMap a ++ replace_class pattern entityMap b.
Proof. unfold replace_class. apply flat_map_app. Qed.

(** X19: with [preventDoubleEscape] off, escaping a concatenation is
    concatenating what escaping gives for the two parts. *)
Theorem double_escaping_distributes (options : Options) (a b : jsstring) :
  preventDoubleEscape options = Some false ->
  escapeHTML (JString (a ++ b)) options
  = and_then (escapeHTML (JString a) options) (fun before =>
    and_then (escapeHTML (JString b) options) (fun after =>
    Normal (before ++ after))).
Proof.
  intros Hoff. unfold escapeHTML. rewrite Hoff. cbn [default negb].
  destruct (Nat.eqb (List.length (escapeSet options)) 0); [done |].
  destruct (new_pattern (regexClass (escapeSet options))); [| done].
  cbn [and_then]. by rewrite replace_class_app.
Qed.

Lemma double_escaping_distributes_witness :
  preventDoubleEscape attribute_options = Some false
  /\ escapeHTML (JString (js "a<" ++ js "&lt;b")) attribute_options
     = and_then (escapeHTML (JString (js "a<")) attribute_options)
         (fun before =>
          and_then (escapeHTML (JString (js "&lt;b")) attribute_options)
            (fun after => Normal (before ++ after))).
Proof.
  split; [reflexivity |].
  apply (double_escaping_distributes attribute_options (js "a<") (js "&lt;b")).
  reflexivity.
Defined.

(** On a text without ampersand and without line terminator the scan
    finds one token for each code unit. *)
Lemma replace_all_tokens_plain (f : jsstring -> jsstring) (s : jsstring) :
  forallb (fun c => negb (c =? 38) && negb (is_line_terminator c)) s = true ->
  replace_all_tokens f s = flat_map (fun c => f [c]) s.
Proof.
  induction s as [| c s IH]; [reflexivity |].
  cbn [forallb]. intros H. apply andb_true_iff in H as [Hc Hs].
  apply andb_true_iff in Hc as [H38 Hlt].
  apply negb_true_iff in H38, Hlt. apply N.eqb_neq in H38.
  assert (E : token (c :: s) = Some ([c], s)).
  { rewrite token_plain by done. by rewrite Hlt. }
  rewrite (replace_all_token f _ _ _ E). cbn [flat_map]. by rewrite IH.
Qed.

Lemma replace_class_units pattern entityMap (s : jsstring) :
  flat_map (fun c => keep_entity pattern entityMap [c]) s
  = replace_class pattern entityMap s.
Proof.
  unfold replace_class. apply flat_map_ext. intros c.
  rewrite keep_entity_unit. unfold replace_class. cbn [flat_map].
  apply app_nil_r.
Qed.

(** X20: on a text that holds no ampersand and no line terminator,
    [preventDoubleEscape] makes no difference. *)
Theorem prevention_only_matters_for_ampersands (options : Options)
    (input : jsstring) :
  forallb (fun c => negb (c =? 38) && negb (is_line_terminator c)) input
  = true ->
  escapeHTML (JString input) options
  = escapeHTML (JString input) (double_escaping options).
Proof.
  intros Hplain. unfold escapeHTML.
  change (escapeSet (double_escaping options)) with (escapeSet options).
  change (entityMap (double_escaping options)) with (entityMap options).
  cbn [double_escaping preventDoubleEscape default negb].
  destruct (Nat.eqb (List.length (escapeSet options)) 0); [done |].
  destruct (new_pattern (regexClass (escapeSet options))); [| done].
  destruct (default true (preventDoubleEscape options)); [| done].
  cbn [negb]. f_equal.
  by rewrite replace_all_tokens_plain, replace_class_units.
Qed.

Lemma prevention_only_matters_for_ampersands_witness :
  forallb (fun c => negb (c =? 38) && negb (is_line_terminator c))
    (js "a < b") = true
  /\ escapeHTML (JString (js "a < b")) no_options
     = escapeHTML (JString (js "a < b")) (double_escaping no_options).
Proof.
  split; [reflexivity |].
  apply (prevention_only_matters_for_ampersands no_options (js "a < b")).
  reflexivity.
Defined.

(** ** The default options *)

Lemma alnum_is_no_markup (c : N) :
  is_alnum c = true ->
  negb ((c =? 60) || (c =? 62) || (c =? 34) || (c =? 39)) = true.
Proof.
  intros H.
  destruct (N.eqb_spec c 60) as [-> | _]; [discriminate H |].
  destruct (N.eqb_spec c 62) as [-> | _]; [discriminate H |].
  destruct (N.eqb_spec c 34) as [-> | _]; [discriminate H |].
  destruct (N.eqb_spec c 39) as [-> | _]; [discriminate H | done].
Qed.

Lemma hex_is_alnum (c : N) : is_hex c = true -> is_alnum c = true.
Proof.
  unfold is_hex, is_alnum, is_letter, is_lower, is_upper, is_digit, in_range.
  intros H.
  repeat match goal with
         | |- context [?a <=? ?b] => destruct (N.leb_spec a b)
         | H : context [?a <=? ?b] |- _ => destruct (N.leb_spec a b)
         end; cbn in *; try done; lia.
Qed.

Lemma entity_shape_no_markup (m : jsstring) :
  entity_shape m ->
  forallb (fun c => negb ((c =? 60) || (c =? 62) || (c =? 34) || (c =? 39)))
    m = true.
Proof.
  assert (Hrun : forall (p : N -> bool) (run : jsstring),
    (forall c, p c = true -> is_alnum c = true) ->
    forallb p run = true ->
    forallb (fun c => negb ((c =? 60) || (c =? 62) || (c =? 34) || (c =? 39)))
      (run ++ [59]) = true).
  { intros p run Hp Hall. rewrite forallb_app. cbn. rewrite andb_true_r.
    rewrite forallb_forall in *. intros c Hc.
    apply alnum_is_no_markup, Hp, Hall, Hc. }
  intros [ds Hne Hall | hs Hne Hall | l r Hl Hne Hall]; cbn [forallb].
  - rewrite (Hrun is_digit); [reflexivity | | done].
    intros c Hc. unfold is_alnum. by rewrite Hc, orb_true_r.
  - rewrite (Hrun is_hex); [reflexivity | apply hex_is_alnum | done].
  - rewrite (Hrun is_alnum); [| done | done].
    rewrite (alnum_is_no_markup l); [reflexivity |].
    unfold is_alnum. by rewrite Hl.
Qed.

Lemma default_callback_no_markup (c : N) :
  forallb (fun c => negb ((c =? 60) || (c =? 62) || (c =? 34) || (c =? 39)))
    (default_callback [c]) = true.
Proof.
  unfold default_callback. rewrite keep_entity_unit.
  unfold replace_class, default_pattern, pattern_matches.
  cbn [flat_map existsb item_matches].
  destruct (N.eqb_spec 38 c) as [<- | H38]; [reflexivity |].
  destruct (N.eqb_spec 60 c) as [<- | H60]; [reflexivity |].
  destruct (N.eqb_spec 62 c) as [<- | H62]; [reflexivity |].
  destruct (N.eqb_spec 34 c) as [<- | H34]; [reflexivity |].
  destruct (N.eqb_spec 39 c) as [<- | H39]; [reflexivity |].
  cbn.
  destruct (N.eqb_spec c 60); [congruence |].
  destruct (N.eqb_spec c 62); [congruence |].
  destruct (N.eqb_spec c 34); [congruence |].
  destruct (N.eqb_spec c 39); [congruence | done].
Qed.

Lemma default_scan_no_markup (s : jsstring) :
  forallb (fun c => negb ((c =? 60) || (c =? 62) || (c =? 34) || (c =? 39)))
    (replace_all_tokens default_callback s) = true.
Proof.
  remember (List.length s) as n eqn:Hn. revert s Hn.
  induction n as [n IH] using lt_wf_ind. intros s Hn.
  destruct s as [| c r]; [reflexivity |].
  destruct (token (c :: r)) as [[m rest] |] eqn:E.
  - pose proof (token_shorter _ _ _ E) as Hlen.
    rewrite (replace_all_token _ _ _ _ E), forallb_app.
    rewrite (IH (List.length rest)), andb_true_r; [| lia | done].
    destruct (token_some _ _ _ E) as [_ [Hm | (c' & -> & _)]].
    + rewrite default_callback_entity by done.
      by apply entity_shape_no_markup.
    + apply default_callback_no_markup.
  - destruct (token_none _ _ E) as [_ Hlt].
    rewrite (replace_all_skip _ _ _ E). cbn [forallb].
    rewrite (IH (List.length r)); [| subst n; cbn; lia | done].
    rewrite andb_true_r.
    destruct (N.eqb_spec c 60) as [-> | _]; [discriminate Hlt |].
    destruct (N.eqb_spec c 62) as [-> | _]; [discriminate Hlt |].
    destruct (N.eqb_spec c 34) as [-> | _]; [discriminate Hlt |].
    destruct (N.eqb_spec c 39) as [-> | _]; [discriminate Hlt | done].
Qed.

(** X21: under the default configuration, with [preventDoubleEscape] on
    or off, the output holds none of [<], [>], the double quote and the
    apostrophe. *)
Theorem default_output_has_no_markup (s : jsstring) :
  exists kept doubled,
    escapeHTML (JString s) no_options = Normal kept
    /\ escapeHTML (JString s) (double_escaping no_options) = Normal doubled
    /\ forallb (fun c => negb ((c =? 60) || (c =? 62) || (c =? 34)
                               || (c =? 39))) kept = true
    /\ forallb (fun c => negb ((c =? 60) || (c =? 62) || (c =? 34)
                               || (c =? 39))) doubled = true.
Proof.
  exists (replace_all_tokens default_callback s),
    (replace_class default_pattern baseMap s).
  split; [apply escapeHTML_default |]. split; [reflexivity |].
  split; [apply default_scan_no_markup |].
  rewrite <- replace_class_units.
  induction s as [| c s IH]; [reflexivity |].
  cbn [flat_map]. rewrite forallb_app, IH, andb_true_r.
  apply default_callback_no_markup.
Qed.

Lemma replace_class_unmatched pattern entityMap (s : jsstring) :
  forallb (fun c => negb (pattern_matches pattern c)) s = true ->
  replace_class pattern entityMap s = s.
Proof.
  unfold replace_class. induction s as [| c s IH]; [reflexivity |].
  cbn [forallb flat_map]. intros H. apply andb_true_iff in H as [Hc Hs].
  apply negb_true_iff in Hc. by rewrite Hc, (IH Hs).
Qed.

Lemma default_pattern_unmatched (s : jsstring) :
  forallb (fun c => negb ((c =? 38) || (c =? 60) || (c =? 62) || (c =? 34)
                          || (c =? 39))) s = true ->
  forallb (fun c => negb (pattern_matches default_pattern c)) s = true.
Proof.
  intros H. rewrite forallb_forall in *. intros c Hc.
  specialize (H c Hc). unfold default_pattern, pattern_matches.
  cbn [existsb item_matches].
  rewrite !(N.eqb_sym _ c), orb_false_r. by rewrite !orb_assoc.
Qed.

(** X22: under the default configuration, with [preventDoubleEscape] on
    or off, a text that holds none of the five characters comes back
    unchanged. *)
Theorem plain_text_is_unchanged (s : jsstring) :
  forallb (fun c => negb ((c =? 38) || (c =? 60) || (c =? 62) || (c =? 34)
                          || (c =? 39))) s = true ->
  escapeHTML (JString s) no_options = Normal s
  /\ escapeHTML (JString s) (double_escaping no_options) = Normal s.
Proof.
  intros Hplain. split.
  - destruct (escapeHTML_default s) as [-> _]. f_equal.
    induction s as [| c s IH]; [reflexivity |].
    cbn [forallb] in Hplain. apply andb_true_iff in Hplain as [Hc Hs].
    assert (H38 : c <> 38) by (intros ->; discriminate Hc).
    assert (Hunit : default_callback [c] = [c]).
    { unfold default_callback. rewrite keep_entity_unit.
      apply replace_class_unmatched, default_pattern_unmatched.
      cbn [forallb]. by rewrite Hc. }
    pose proof (token_plain c s H38) as E.
    destruct (is_line_terminator c).
    + by rewrite (replace_all_skip _ _ _ E), (IH Hs).
    + by rewrite (replace_all_token _ _ _ _ E), Hunit, (IH Hs).
  - change (Normal (replace_class default_pattern baseMap s) = Normal s).
    f_equal. by apply replace_class_unmatched, default_pattern_unmatched.
Qed.

Lemma plain_text_is_unchanged_witness :
  forallb (fun c => negb ((c =? 38) || (c =? 60) || (c =? 62) || (c =? 34)
                          || (c =? 39))) (js "Hello world") = true
  /\ escapeHTML (JString (js "Hello world")) no_options
     = Normal (js "Hello world")
  /\ escapeHTML (JString (js "Hello world")) (double_escaping no_options)
     = Normal (js "Hello world").
Proof.
  split; [reflexivity |].
  apply (plain_text_is_unchanged (js "Hello world")). reflexivity.
Defined.

End EscapeHTMLMore.

(** * Properties of [validateEmail] *)
Section ValidateEmailFacts.
Import EscapeHTML ValidateEmail.

(** What a greedy run followed by [k] matched. *)
Lemma many1_some (p : N -> bool) (k : matcher) (s m rest : jsstring) :
  many1 p k s = Some (m, rest) ->
  exists run t m',
    run <> [] /\ forallb p run = true /\ s = run ++ t
    /\ k t = Some (m', rest) /\ m = run ++ m'.
Proof.
  revert m rest. induction s as [| d r IH]; intros m rest; cbn [many1];
    [discriminate |].
  destruct (p d) eqn:Hd; [| discriminate].
  destruct (many1 p k r) as [[m1 rest1] |] eqn:E.
  - cbn. intros H. injection H as <- <-.
    destruct (IH m1 rest1 eq_refl) as (run & t & m' & Hne & Hall & -> & Hk & ->).
    exists (d :: run), t, m'. cbn. rewrite Hd, Hall. by repeat split.
  - intros H. apply consumed_some in H as (m' & Hk & ->).
    exists [d], r, m'. cbn. rewrite Hd. by repeat split.
Qed.

(** Giving code units back, the run finds a place where [k] matches
    whenever there is one. *)
Lemma many1_finds (p : N -> bool) (k : matcher) (run t : jsstring) :
  run <> [] -> forallb p run = true -> k t <> None ->
  many1 p k (run ++ t) <> None.
Proof.
  intros Hne Hall Hk. induction run as [| d run IH]; [done |].
  cbn [forallb] in Hall. apply andb_true_iff in Hall as [Hd Hall].
  cbn [app many1]. rewrite Hd.
  destruct (many1 p k (run ++ t)) as [[m1 r1] |] eqn:E; [done |].
  destruct run as [| d' run'].
  - cbn [app]. destruct (k t) as [[m2 r2] |]; [done | by destruct Hk].
  - exfalso. by apply IH.
Qed.

Lemma end_of_input_some (s m rest : jsstring) :
  end_of_input s = Some (m, rest) -> s = [] /\ m = [] /\ rest = [].
Proof.
  destruct s; [| discriminate]. cbn. intros H. by injection H as <- <-.
Qed.

Lemma lit_some (c : N) (k : matcher) (s m rest : jsstring) :
  lit c k s = Some (m, rest) ->
  exists r m', s = c :: r /\ k r = Some (m', rest) /\ m = c :: m'.
Proof.
  unfold lit. destruct s as [| d r]; [discriminate |].
  destruct (N.eqb_spec d c) as [-> | _]; [| discriminate].
  intros H. apply consumed_some in H as (m' & Hk & ->). by exists r, m'.
Qed.

Lemma pattern_sound (s m rest : jsstring) :
  pattern s = Some (m, rest) -> email_shape s.
Proof.
  unfold pattern. intros H.
  apply many1_some in H as (local & t1 & m1 & Hl & Hlall & -> & H & _).
  apply lit_some in H as (t2 & m2 & -> & H & _).
  apply many1_some in H as (domain & t3 & m3 & Hd & Hdall & -> & H & _).
  apply lit_some in H as (t4 & m4 & -> & H & _).
  unfold one in H. destruct t4 as [| a t5]; [discriminate |].
  destruct (is_letter a) eqn:Ha; [| discriminate].
  apply consumed_some in H as (m5 & H & _).
  apply many1_some in H as (tld & t6 & m6 & Ht & Htall & -> & H & _).
  apply end_of_input_some in H as (-> & _ & _). rewrite app_nil_r.
  apply (email_parts local domain (a :: tld)); try done.
  - destruct tld; [done | cbn; lia].
  - cbn. by rewrite Ha, Htall.
Qed.

Lemma pattern_complete (s : jsstring) : email_shape s -> pattern s <> None.
Proof.
  intros [local domain tld Hl Hlall Hd Hdall Hlen Htall]. unfold pattern.
  apply many1_finds; [done | done |].
  cbn [lit]. rewrite N.eqb_refl.
  assert (Hrest : many1 is_domain_part
            (lit 46 (one is_letter (many1 is_letter end_of_input)))
            (domain ++ 46 :: tld) <> None).
  { apply many1_finds; [done | done |].
    cbn [lit]. rewrite N.eqb_refl.
    destruct tld as [| a [| b tld]]; [cbn in Hlen; lia | cbn in Hlen; lia |].
    cbn [forallb] in Htall. apply andb_true_iff in Htall as [Ha Htall].
    unfold one. rewrite Ha.
    assert (Htld : many1 is_letter end_of_input ((b :: tld) ++ []) <> None)
      by by apply many1_finds.
    rewrite app_nil_r in Htld.
    by destruct (many1 is_letter end_of_input (b :: tld)) as [[? ?] |]. }
  by destruct (many1 is_domain_part _ (domain ++ 46 :: tld)) as [[? ?] |].
Qed.

Lemma accepted_iff_shape (email : jsstring) :
  validateEmail (JString email) = true <-> email_shape (trim email).
Proof.
  unfold validateEmail. split.
  - destruct (pattern (trim email)) as [[m rest] |] eqn:E; [| discriminate].
    intros _. by apply (pattern_sound _ m rest).
  - intros H. apply pattern_complete in H.
    by destruct (pattern (trim email)).
Qed.

(** X23: [validateEmail] accepts a string exactly when, trimmed, it is
    a local part of letters, digits and [._%+-], then [@], then a
    domain of letters, digits, dots and hyphens, then a dot and two
    letters or more; both parts are non-empty. *)
Theorem validateEmail_accepts_the_shape (email : jsstring) :
  validateEmail (JString email) = true
  <-> exists local domain tld,
        trim email = local ++ 64 :: domain ++ 46 :: tld
        /\ local <> [] /\ forallb is_local_part local = true
        /\ domain <> [] /\ forallb is_domain_part domain = true
        /\ (2 <= List.length tld)%nat /\ forallb is_letter tld = true.
Proof.
  rewrite accepted_iff_shape. split.
  - intros H. inversion H as [local domain tld Hl Hlall Hd Hdall Hlen Ht Heq].
    by exists local, domain, tld.
  - intros (local & domain & tld & -> & Hl & Hlall & Hd & Hdall & Hlen & Ht).
    by apply email_parts.
Qed.

Lemma local_part_range (c : N) :
  is_local_part c = true -> 37 <= c <= 122 /\ c <> 64.
Proof.
  unfold is_local_part, is_alnum, is_letter, is_lower, is_upper, is_digit,
    in_range.
  rewrite !orb_true_iff, !andb_true_iff, !N.leb_le, !N.eqb_eq. lia.
Qed.

Lemma domain_part_range (c : N) :
  is_domain_part c = true -> 45 <= c <= 122 /\ c <> 64.
Proof.
  unfold is_domain_part, is_alnum, is_letter, is_lower, is_upper, is_digit,
    in_range.
  rewrite !orb_true_iff, !andb_true_iff, !N.leb_le, !N.eqb_eq. lia.
Qed.

Lemma letter_range (c : N) :
  is_letter c = true -> 65 <= c <= 122 /\ is_domain_part c = true.
Proof.
  unfold is_domain_part, is_alnum, is_letter, is_lower, is_upper, in_range.
  intros H. rewrite H. split; [| done]. revert H.
  rewrite !orb_true_iff, !andb_true_iff, !N.leb_le. lia.
Qed.

Lemma trimmable_range (c : N) :
  is_trimmable c = true -> c <= 32 \/ 160 <= c.
Proof.
  unfold is_trimmable, is_white_space, is_line_terminator, in_range.
  rewrite !orb_true_iff, !andb_true_iff, !N.leb_le, !N.eqb_eq. lia.
Qed.

(** X24: in an address that [validateEmail] accepts, once trimmed,
    there is exactly one [@], with something before it, a dot somewhere
    after it and a letter at the very end, and there is no white
    space. *)
Theorem accepted_email_is_well_formed (email : jsstring) :
  validateEmail (JString email) = true ->
  exists local domain,
    trim email = local ++ 64 :: domain
    /\ local <> [] /\ ~ In 64 local
    /\ ~ In 64 domain /\ In 46 domain
    /\ is_letter (List.last domain 0) = true
    /\ forallb (fun c => negb (is_trimmable c)) (trim email) = true.
Proof.
  intros H. apply accepted_iff_shape in H.
  inversion H as [local domain tld Hl Hlall Hd Hdall Hlen Ht Heq].
  clear H Heq.
  assert (Hdomain : forallb is_domain_part (domain ++ 46 :: tld) = true).
  { rewrite forallb_app. cbn [forallb]. rewrite Hdall. cbn.
    rewrite forallb_forall in *. intros c Hc. by apply letter_range, Ht. }
  exists local, (domain ++ 46 :: tld).
  split; [done |]. split; [done |]. split; [| split; [| split; [| split]]].
  - intros Hin. rewrite forallb_forall in Hlall.
    by destruct (local_part_range _ (Hlall _ Hin)).
  - intros Hin. rewrite forallb_forall in Hdomain.
    by destruct (domain_part_range _ (Hdomain _ Hin)).
  - apply in_or_app. right. by left.
  - destruct tld as [| a tld] using rev_ind; [cbn in Hlen; lia |].
    rewrite app_comm_cons, app_assoc, last_last.
    rewrite forallb_app in Ht. apply andb_true_iff in Ht as [_ Ht].
    cbn in Ht. by rewrite andb_true_r in Ht.
  - rewrite forallb_app. cbn [forallb]. apply andb_true_iff. split.
    + rewrite forallb_forall in *. intros c Hc. apply negb_true_iff.
      destruct (is_trimmable c) eqn:E; [| done].
      apply trimmable_range in E.
      destruct (local_part_range _ (Hlall _ Hc)). lia.
    + apply andb_true_iff. split; [reflexivity |].
      rewrite forallb_forall in *. intros c Hc. apply negb_true_iff.
      destruct (is_trimmable c) eqn:E; [| done].
      apply trimmable_range in E.
      destruct (domain_part_range _ (Hdomain _ Hc)). lia.
Qed.

Lemma accepted_email_is_well_formed_witness :
  validateEmail (JString (js "  USER.NAME@Example.CO ")) = true
  /\ exists local domain,
       trim (js "  USER.NAME@Example.CO ") = local ++ 64 :: domain
       /\ local <> [] /\ ~ In 64 local
       /\ ~ In 64 domain /\ In 46 domain
       /\ is_letter (List.last domain 0) = true
       /\ forallb (fun c => negb (is_trimmable c))
            (trim (js "  USER.NAME@Example.CO ")) = true.
Proof.
  split; [reflexivity |].
  apply (accepted_email_is_well_formed (js "  USER.NAME@Example.CO ")).
  reflexivity.
Defined.

Lemma drop_while_app_all (p : N -> bool) (a b : jsstring) :
  forallb p a = true -> drop_while p (a ++ b) = drop_while p b.
Proof.
  induction a as [| c a IH]; [done |].
  cbn [forallb app drop_while]. intros H.
  apply andb_true_iff in H as [-> H]. by apply IH.
Qed.

Lemma trimEnd_app_white (s ws : jsstring) :
  forallb is_trimmable ws = true -> trimEnd (s ++ ws) = trimEnd s.
Proof.
  intros H. unfold trimEnd. rewrite rev_app_distr, drop_while_app_all; [done |].
  rewrite forallb_forall in *. intros c Hc. apply H. by apply in_rev.
Qed.

Lemma trimEnd_fixed (s : jsstring) :
  match rev s with c :: _ => is_trimmable c = false | [] => True end ->
  trimEnd s = s.
Proof.
  unfold trimEnd. destruct (rev s) as [| c r] eqn:E.
  - intros _. cbn. apply (f_equal (@rev N)) in E.
    by rewrite rev_involutive in E.
  - intros Hc. cbn [drop_while]. rewrite Hc, <- E. apply rev_involutive.
Qed.

(** White space around a text does not change what [trim] gives. *)
Lemma trim_ignores_white_space (before s after : jsstring) :
  forallb is_trimmable before = true ->
  forallb is_trimmable after = true ->
  trim (before ++ s ++ after) = trim s.
Proof.
  intros Hb Ha. unfold trim. rewrite app_assoc, trimEnd_app_white by done.
  destruct (trimEnd_split s) as (ws & Hs & Hws).
  pose proof (trimEnd_last s) as Hlast.
  rewrite Hs at 1. rewrite app_assoc, trimEnd_app_white by done.
  destruct (trimEnd s) as [| c x] eqn:E.
  - rewrite app_nil_r.
    rewrite <- (app_nil_l before), trimEnd_app_white by done. reflexivity.
  - rewrite trimEnd_fixed.
    + by apply drop_while_app_all.
    + rewrite rev_app_distr. destruct (rev (c :: x)) as [| d y] eqn:Er.
      * apply (f_equal (@List.length N)) in Er.
        rewrite length_rev in Er. discriminate Er.
      * done.
Qed.

(** X25: white space before and after an address does not change the
    answer of [validateEmail]. *)
Theorem validateEmail_ignores_white_space (before email after : jsstring) :
  forallb is_trimmable before = true ->
  forallb is_trimmable after = true ->
  validateEmail (JString (before ++ email ++ after))
  = validateEmail (JString email).
Proof.
  intros Hb Ha. unfold validateEmail.
  by rewrite trim_ignores_white_space.
Qed.

Lemma validateEmail_ignores_white_space_witness :
  forallb is_trimmable (js "   ") = true
  /\ forallb is_trimmable [9; 10] = true
  /\ validateEmail (JString (js "   " ++ js "space@example.com" ++ [9; 10]))
     = validateEmail (JString (js "space@example.com")).
Proof.
  split; [reflexivity |]. split; [reflexivity |].
  apply (validateEmail_ignores_white_space (js "   ")
           (js "space@example.com") [9; 10]); reflexivity.
Defined.

End ValidateEmailFacts.
